(** * Side-chat front end: API client, SideChat panel, StepControls and the
      TopicSplit banner, embedded from the TypeScript / Svelte sources.

    - [Js]            : the JavaScript values the code manipulates
                        (strings as UTF-16 code units, numbers as binary64).
    - [SideChatApi]   : src/lib/apis/side-chats/index.ts
    - [StepControls]  : the StepControls component with the [loading] flag
    - [SideChat]      : SideChat.svelte, the variant with busy flags
    - [SideChatPlain] : SideChat.svelte, the purely event-driven variant
    - [TopicSplit]    : the TopicSplit countdown banner *)

From Stdlib Require Import Bool List NArith String Ascii Lia.
From Stdlib Require Import Floats.PrimFloat.
Import ListNotations.

Set Warnings "-register-all".

(* ================================================================== *)
(** ** JavaScript values                                               *)
(* ================================================================== *)

Module Js.

(** A JavaScript string is a sequence of UTF-16 code units. *)
Definition jstring : Type := list N.

(** ASCII literals of the source, as code units. *)
Definition lit (s : string) : jstring :=
  List.map N_of_ascii (list_ascii_of_string s).

Fixpoint jstring_eqb (a b : jstring) : bool :=
  match a, b with
  | [], [] => true
  | x :: a', y :: b' => N.eqb x y && jstring_eqb a' b'
  | _, _ => false
  end.

Inductive value : Type :=
| Undefined
| Null
| Bool (b : bool)
| Num (x : float)
| Str (s : jstring)
| Arr (xs : list value)
| Obj (fields : list (jstring * value)).

(** ToBoolean: [undefined], [null], [false], [+0], [-0], [NaN] and the empty
    string are falsy; everything else, every object included, is truthy. *)
Definition truthy (v : value) : bool :=
  match v with
  | Undefined | Null => false
  | Bool b => b
  | Num x => negb (PrimFloat.is_zero x || PrimFloat.is_nan x)
  | Str s => negb (jstring_eqb s [])
  | Arr _ | Obj _ => true
  end.

(** ECMAScript WhiteSpace and LineTerminator code points: what
    [String.prototype.trim] strips. *)
Definition is_ws (c : N) : bool :=
  (N.leb 9 c && N.leb c 13)            (* TAB LF VT FF CR *)
  || N.eqb c 32                        (* SPACE *)
  || N.eqb c 160                       (* NBSP *)
  || N.eqb c 5760                      (* U+1680 *)
  || (N.leb 8192 c && N.leb c 8202)    (* U+2000 .. U+200A *)
  || N.eqb c 8232 || N.eqb c 8233      (* LS PS *)
  || N.eqb c 8239                      (* U+202F *)
  || N.eqb c 8287                      (* U+205F *)
  || N.eqb c 12288                     (* U+3000 *)
  || N.eqb c 65279.                    (* U+FEFF *)

Fixpoint trim_start (s : jstring) : jstring :=
  match s with
  | c :: s' => if is_ws c then trim_start s' else s
  | [] => []
  end.

Definition trim_end (s : jstring) : jstring := rev (trim_start (rev s)).

(** [s.trim()] *)
Definition trim (s : jstring) : jstring := trim_end (trim_start s).

(** A settled promise: fulfilled with a value, or rejected with whatever was
    thrown (any JavaScript value can be thrown). *)
Inductive outcome (A : Type) : Type :=
| Fulfilled (a : A)
| Rejected (e : value).

Arguments Fulfilled {A} a.
Arguments Rejected {A} e.

(** [p.then(f)] for a settled [p]: a rejection skips [f]. *)
Definition and_then {A B : Type} (p : outcome A) (f : A -> outcome B) : outcome B :=
  match p with
  | Fulfilled a => f a
  | Rejected e => Rejected e
  end.

End Js.

(* ================================================================== *)
(** ** Side-chat API client (src/lib/apis/side-chats/index.ts)         *)
(* ================================================================== *)

Module SideChatApi.
Import Js.

(** The second argument of [fetch]. *)
Record RequestInit : Type := {
  method : jstring;
  headers : list (jstring * jstring);
  body : option jstring
}.

(** What the code reads of a [Response]: [res.ok] and the promise [res.json()]. *)
Record Response : Type := {
  ok : bool;
  json : outcome value
}.

(** Header names are case-insensitive: a [Headers] object compares them
    lower-cased. *)
Definition lower (c : N) : N :=
  if N.leb 65 c && N.leb c 90 then (c + 32)%N else c.

Fixpoint header_get (name : jstring) (hs : list (jstring * jstring)) : option jstring :=
  match hs with
  | [] => None
  | (k, v) :: hs' =>
      if jstring_eqb (List.map lower k) (List.map lower name) then Some v
      else header_get name hs'
  end.

(** [...(token && { authorization: `Bearer ${token}` })].  The token is a
    string; [None] stands for a caller passing [undefined] or [null].  A falsy
    token spreads no property. *)
Definition auth_spread (token : option jstring) : list (jstring * jstring) :=
  match token with
  | Some t => if truthy (Str t) then [(lit "authorization", lit "Bearer " ++ t)] else []
  | None => []
  end.

Definition base_headers (token : option jstring) : list (jstring * jstring) :=
  [(lit "Accept", lit "application/json");
   (lit "Content-Type", lit "application/json")] ++ auth_spread token.

Section Client.

(** [WEBUI_API_BASE_URL], imported from [$lib/constants]. *)
Variable WEBUI_API_BASE_URL : jstring.
(** The platform's [JSON.stringify]. *)
Variable JSON_stringify : value -> jstring.
(** The network: how [fetch(url, init)] settles. *)
Variable fetch : jstring -> RequestInit -> outcome Response.

(** What a call leaves behind: the requests handed to [fetch] and the values
    passed to [console.error], oldest first. *)
Record world : Type := {
  sent : list (jstring * RequestInit);
  logged : list value
}.

(** The world once [fetch(url, init)] has been called. *)
Definition after_fetch (url : jstring) (init : RequestInit) (w : world) : world :=
  {| sent := sent w ++ [(url, init)]; logged := logged w |}.

Definition do_fetch (url : jstring) (init : RequestInit) (w : world)
  : outcome Response * world :=
  (fetch url init, after_fetch url init w).

Definition console_error (v : value) (w : world) : world :=
  {| sent := sent w; logged := logged w ++ [v] |}.

(** [.then(async (res) => { if (!res.ok) throw await res.json(); return res.json(); })] *)
Definition on_response (res : Response) : outcome value :=
  if negb (ok res) then
    match json res with
    | Fulfilled parsed => Rejected parsed
    | Rejected e => Rejected e
    end
  else json res.

(** The body shared by the five functions, from [let error = null] to
    [return res]:
    the fetch promise goes through [.then] and [.catch]; the catch handler
    stores the error, logs it and yields [null]; then [if (error) throw error;
    return res]. *)
Definition call (url : jstring) (init : RequestInit) (w : world)
  : outcome value * world :=
  let error := Null in
  let '(fetched, w) := do_fetch url init w in
  let '(res, error, w) :=
    match and_then fetched on_response with
    | Fulfilled v => (v, error, w)
    | Rejected err => (Null, err, console_error err w)
    end in
  if truthy error then (Rejected error, w) else (Fulfilled res, w).

Definition createSideChat (token : option jstring) (body : value) :=
  call (WEBUI_API_BASE_URL ++ lit "/side-chats/")
       {| method := lit "POST";
          headers := base_headers token;
          body := Some (JSON_stringify body) |}.

Definition getSideChatsByChatId (token : option jstring) (chatId : jstring) :=
  call (WEBUI_API_BASE_URL ++ lit "/side-chats/by-chat/" ++ chatId)
       {| method := lit "GET";
          headers := base_headers token;
          body := None |}.

Definition addSideChatMessage (token : option jstring) (sideChatId : jstring) (body : value) :=
  call (WEBUI_API_BASE_URL ++ lit "/side-chats/" ++ sideChatId ++ lit "/messages")
       {| method := lit "POST";
          headers := base_headers token;
          body := Some (JSON_stringify body) |}.

Definition combineSideChat (token : option jstring) (sideChatId : jstring) :=
  call (WEBUI_API_BASE_URL ++ lit "/side-chats/" ++ sideChatId ++ lit "/combine")
       {| method := lit "POST";
          headers := base_headers token;
          body := None |}.

Definition deleteSideChat (token : option jstring) (sideChatId : jstring) :=
  call (WEBUI_API_BASE_URL ++ lit "/side-chats/" ++ sideChatId)
       {| method := lit "DELETE";
          headers := base_headers token;
          body := None |}.

End Client.

(** The five exported functions, as one family. *)
Inductive operation : Type :=
| Create (body : value)
| ListByChat (chatId : jstring)
| AddMessage (sideChatId : jstring) (body : value)
| CombineOp (sideChatId : jstring)
| Delete (sideChatId : jstring).

Definition perform (base : jstring) (stringify : value -> jstring)
  (fetch : jstring -> RequestInit -> outcome Response)
  (op : operation) (token : option jstring) : world -> outcome value * world :=
  match op with
  | Create b => createSideChat base stringify fetch token b
  | ListByChat c => getSideChatsByChatId base fetch token c
  | AddMessage i b => addSideChatMessage base stringify fetch token i b
  | CombineOp i => combineSideChat base fetch token i
  | Delete i => deleteSideChat base fetch token i
  end.

(** The three ways a call fails, each with the value [e] that reaches the
    [.catch] handler. *)
Inductive failure : Type :=
| NetworkFailure                 (* [fetch] rejects with [e] *)
| HttpFailure                    (* [res.ok] is false, the body parses to [e] *)
| ParseFailure (ok' : bool).     (* [res.json()] rejects with [e] *)

Definition failing (k : failure) (e : value) : outcome Response :=
  match k with
  | NetworkFailure => Rejected e
  | HttpFailure => Fulfilled {| ok := false; json := Fulfilled e |}
  | ParseFailure b => Fulfilled {| ok := b; json := Rejected e |}
  end.

End SideChatApi.

(* ================================================================== *)
(** ** StepControls, the component that requests the next step itself   *)
(* ================================================================== *)

Module StepControls.
Import Js.

(** Events handed to [dispatch]. *)
Inductive emitted : Type :=
| NextStep (detail : value)
| ShowAllSteps (detail : value).

(** Props, the [loading] variable, and what the component has emitted and
    logged so far. *)
Record state : Type := {
  chatId : jstring;
  currentStep : float;
  totalSteps : float;
  planSummary : jstring;
  loading : bool;
  dispatched : list emitted;
  logged : list (list value)
}.

Definition init (chatId' : jstring) (currentStep' totalSteps' : float)
  (planSummary' : jstring) : state :=
  {| chatId := chatId'; currentStep := currentStep'; totalSteps := totalSteps';
     planSummary := planSummary'; loading := false; dispatched := []; logged := [] |}.

Definition set_loading (b : bool) (st : state) : state :=
  {| chatId := chatId st; currentStep := currentStep st; totalSteps := totalSteps st;
     planSummary := planSummary st; loading := b;
     dispatched := dispatched st; logged := logged st |}.

Definition console_error (args : list value) (st : state) : state :=
  {| chatId := chatId st; currentStep := currentStep st; totalSteps := totalSteps st;
     planSummary := planSummary st; loading := loading st;
     dispatched := dispatched st; logged := logged st ++ [args] |}.

Definition record_event (ev : emitted) (st : state) : state :=
  {| chatId := chatId st; currentStep := currentStep st; totalSteps := totalSteps st;
     planSummary := planSummary st; loading := loading st;
     dispatched := dispatched st ++ [ev]; logged := logged st |}.

(** [$: progress = totalSteps > 0 ? (currentStep / totalSteps) * 100 : 0] *)
Definition progress (st : state) : float :=
  if PrimFloat.ltb 0 (totalSteps st)
  then PrimFloat.mul (PrimFloat.div (currentStep st) (totalSteps st)) 100
  else 0%float.

(** [disabled={loading}] on the Next button. *)
Definition next_disabled (st : state) : bool := loading st.

Section Handlers.

(** [localStorage.token] *)
Variable localStorage_token : value.
(** [nextStep] and [getAllSteps] of [$lib/apis/chats]: how the awaited call
    settles. *)
Variable nextStep : value -> jstring -> outcome value.
Variable getAllSteps : value -> jstring -> outcome value.
(** The parent's listeners: [dispatch] calls them synchronously, and a
    listener that throws ([Some err]) makes [dispatch] throw. *)
Variable listener : emitted -> option value.

Definition dispatch (ev : emitted) (st : state) : option value * state :=
  (listener ev, record_event ev st).

(** [handleNext] up to its [await]: the guard, then [loading = true].  The
    boolean tells whether the request was issued. *)
Definition handleNext_start (st : state) : state * bool :=
  if loading st || negb (truthy (Str (chatId st))) then (st, false)
  else (set_loading true st, true).

(** [handleNext] from the [await] on, once the request has settled with [o]:
    the rest of the [try], the [catch], and the [finally]. *)
Definition handleNext_resume (o : outcome value) (st : state) : state :=
  let st :=
    match o with
    | Fulfilled res =>
        match dispatch (NextStep res) st with
        | (None, st') => st'
        | (Some err, st') => console_error [Str (lit "nextStep failed:"); err] st'
        end
    | Rejected err => console_error [Str (lit "nextStep failed:"); err] st
    end in
  set_loading false st.

(** [handleNext] run to completion with nothing in between. *)
Definition handleNext (st : state) : state :=
  let '(st1, issued) := handleNext_start st in
  if issued then handleNext_resume (nextStep localStorage_token (chatId st)) st1
  else st1.

Definition handleShowAll_resume (o : outcome value) (st : state) : state :=
  match o with
  | Fulfilled res =>
      match dispatch (ShowAllSteps res) st with
      | (None, st') => st'
      | (Some err, st') => console_error [Str (lit "getAllSteps failed:"); err] st'
      end
  | Rejected err => console_error [Str (lit "getAllSteps failed:"); err] st
  end.

Definition handleShowAll (st : state) : state :=
  if negb (truthy (Str (chatId st))) then st
  else handleShowAll_resume (getAllSteps localStorage_token (chatId st)) st.

End Handlers.

End StepControls.

(* ================================================================== *)
(** ** SideChat panel, the variant with busy flags                      *)
(* ================================================================== *)

Module SideChat.
Import Js.

Record message : Type := { role : jstring; content : jstring }.

(** Events handed to [dispatch]. *)
Inductive emitted : Type :=
| SendMessage (content : jstring)      (* detail: { content } *)
| Combine
| Discard
| Close.

(** Props ([stepNumber], [stepContent], [messages], [isOpen]), the local
    variables of the script, the events dispatched so far and the number of
    calls to [scrollToBottom]. *)
Record state : Type := {
  stepNumber : float;
  stepContent : jstring;
  messages : list message;
  isOpen : bool;
  inputText : jstring;
  isStreaming : bool;
  combineLoading : bool;
  discardLoading : bool;
  dispatched : list emitted;
  scrolls : nat
}.

Definition set_inputText (s : jstring) (st : state) : state :=
  {| stepNumber := stepNumber st; stepContent := stepContent st;
     messages := messages st; isOpen := isOpen st;
     inputText := s; isStreaming := isStreaming st;
     combineLoading := combineLoading st; discardLoading := discardLoading st;
     dispatched := dispatched st; scrolls := scrolls st |}.

Definition set_combineLoading (b : bool) (st : state) : state :=
  {| stepNumber := stepNumber st; stepContent := stepContent st;
     messages := messages st; isOpen := isOpen st;
     inputText := inputText st; isStreaming := isStreaming st;
     combineLoading := b; discardLoading := discardLoading st;
     dispatched := dispatched st; scrolls := scrolls st |}.

Definition set_discardLoading (b : bool) (st : state) : state :=
  {| stepNumber := stepNumber st; stepContent := stepContent st;
     messages := messages st; isOpen := isOpen st;
     inputText := inputText st; isStreaming := isStreaming st;
     combineLoading := combineLoading st; discardLoading := b;
     dispatched := dispatched st; scrolls := scrolls st |}.

(** An event handed to [dispatch] is on record, whatever the listeners do. *)
Definition record_event (ev : emitted) (st : state) : state :=
  {| stepNumber := stepNumber st; stepContent := stepContent st;
     messages := messages st; isOpen := isOpen st;
     inputText := inputText st; isStreaming := isStreaming st;
     combineLoading := combineLoading st; discardLoading := discardLoading st;
     dispatched := dispatched st ++ [ev]; scrolls := scrolls st |}.

Definition scrollToBottom (st : state) : state :=
  {| stepNumber := stepNumber st; stepContent := stepContent st;
     messages := messages st; isOpen := isOpen st;
     inputText := inputText st; isStreaming := isStreaming st;
     combineLoading := combineLoading st; discardLoading := discardLoading st;
     dispatched := dispatched st; scrolls := S (scrolls st) |}.

Definition set_stepNumber (n : float) (st : state) : state :=
  {| stepNumber := n; stepContent := stepContent st;
     messages := messages st; isOpen := isOpen st;
     inputText := inputText st; isStreaming := isStreaming st;
     combineLoading := combineLoading st; discardLoading := discardLoading st;
     dispatched := dispatched st; scrolls := scrolls st |}.

Definition set_stepContent (c : jstring) (st : state) : state :=
  {| stepNumber := stepNumber st; stepContent := c;
     messages := messages st; isOpen := isOpen st;
     inputText := inputText st; isStreaming := isStreaming st;
     combineLoading := combineLoading st; discardLoading := discardLoading st;
     dispatched := dispatched st; scrolls := scrolls st |}.

Definition set_messages (ms : list message) (st : state) : state :=
  {| stepNumber := stepNumber st; stepContent := stepContent st;
     messages := ms; isOpen := isOpen st;
     inputText := inputText st; isStreaming := isStreaming st;
     combineLoading := combineLoading st; discardLoading := discardLoading st;
     dispatched := dispatched st; scrolls := scrolls st |}.

Definition set_isOpen (o : bool) (st : state) : state :=
  {| stepNumber := stepNumber st; stepContent := stepContent st;
     messages := messages st; isOpen := o;
     inputText := inputText st; isStreaming := isStreaming st;
     combineLoading := combineLoading st; discardLoading := discardLoading st;
     dispatched := dispatched st; scrolls := scrolls st |}.

(** [$: if (messages.length) { scrollToBottom(); }] *)
Definition react_messages (st : state) : state :=
  match messages st with
  | [] => st
  | _ :: _ => scrollToBottom st
  end.

(** The script run at creation, props given. *)
Definition init (n : float) (c : jstring) (ms : list message) (o : bool) : state :=
  react_messages
    {| stepNumber := n; stepContent := c; messages := ms; isOpen := o;
       inputText := []; isStreaming := false;
       combineLoading := false; discardLoading := false;
       dispatched := []; scrolls := 0 |}.

Section Handlers.

(** The parent's listeners: [dispatch] calls them synchronously, and a
    listener that throws ([Some err]) makes [dispatch] throw. *)
Variable listener : emitted -> option value.

Definition dispatch (ev : emitted) (st : state) : option value * state :=
  (listener ev, record_event ev st).

(** A handler returns what it threw, if anything, and the state it leaves.
    An exception of [dispatch] leaves [handleSend] before [inputText = ''] and
    [scrollToBottom()]. *)
Definition handleSend (st : state) : option value * state :=
  if negb (truthy (Str (trim (inputText st)))) || isStreaming st then (None, st)
  else
    match dispatch (SendMessage (trim (inputText st))) st with
    | (Some err, st) => (Some err, st)
    | (None, st) =>
        let st := set_inputText [] st in
        (None, scrollToBottom st)
    end.

Definition handleCombine (st : state) : option value * state :=
  let st := set_combineLoading true st in
  dispatch Combine st.

Definition handleDiscard (st : state) : option value * state :=
  let st := set_discardLoading true st in
  dispatch Discard st.

(** Returns whether [e.preventDefault()] was called, and what [handleSend]
    did if it was called. *)
Definition handleKeydown (key : jstring) (shiftKey : bool) (st : state)
  : bool * (option value * state) :=
  if jstring_eqb key (lit "Enter") && negb shiftKey then (true, handleSend st)
  else (false, (None, st)).

Definition handleClose (st : state) : option value * state := dispatch Close st.

End Handlers.

(** The [disabled] attributes of the markup. *)
Definition combine_disabled (st : state) : bool := combineLoading st || discardLoading st.
Definition discard_disabled (st : state) : bool := combineLoading st || discardLoading st.
Definition send_disabled (st : state) : bool :=
  negb (truthy (Str (trim (inputText st)))) || isStreaming st.

(** What can happen to the component: the user acts on the rendered panel, or
    the parent sets a prop.  The markup is inside [{#if isOpen}], and a
    disabled button receives no click.  Setting [messages] re-runs the
    reactive statement that depends on it. *)
Inductive event : Type :=
| TypeText (s : jstring)                       (* textarea, [bind:value] *)
| Keydown (key : jstring) (shiftKey : bool)
| ClickSend
| ClickCombine
| ClickDiscard
| ClickClose
| SetStepNumber (n : float)
| SetStepContent (c : jstring)
| SetMessages (ms : list message)
| SetOpen (o : bool).

Section Run.

Variable listener : emitted -> option value.

(** An exception that leaves an event handler is reported by the browser; the
    component stays in the state the handler has left. *)
Definition user_step (st : state) (ev : event) : state :=
  match ev with
  | TypeText s => set_inputText s st
  | Keydown key shiftKey => snd (snd (handleKeydown listener key shiftKey st))
  | ClickSend => if send_disabled st then st else snd (handleSend listener st)
  | ClickCombine => if combine_disabled st then st else snd (handleCombine listener st)
  | ClickDiscard => if discard_disabled st then st else snd (handleDiscard listener st)
  | ClickClose => snd (handleClose listener st)
  | _ => st
  end.

Definition step (st : state) (ev : event) : state :=
  match ev with
  | SetStepNumber n => set_stepNumber n st
  | SetStepContent c => set_stepContent c st
  | SetMessages ms => react_messages (set_messages ms st)
  | SetOpen o => set_isOpen o st
  | _ => if isOpen st then user_step st ev else st
  end.

Definition run (st : state) (evs : list event) : state := fold_left step evs st.

End Run.

End SideChat.

(* ================================================================== *)
(** ** SideChat panel, the purely event-driven variant                  *)
(* ================================================================== *)

Module SideChatPlain.
Import Js.

Inductive emitted : Type :=
| SendMessage (content : jstring)
| Combine
| Discard.

Record state : Type := {
  inputText : jstring;
  isStreaming : bool;
  dispatched : list emitted
}.

Definition init : state :=
  {| inputText := []; isStreaming := false; dispatched := [] |}.

Definition record_event (ev : emitted) (st : state) : state :=
  {| inputText := inputText st; isStreaming := isStreaming st;
     dispatched := dispatched st ++ [ev] |}.

Definition set_inputText (s : jstring) (st : state) : state :=
  {| inputText := s; isStreaming := isStreaming st; dispatched := dispatched st |}.

Section Handlers.

(** The parent's listeners; one that throws makes [dispatch] throw. *)
Variable listener : emitted -> option value.

Definition dispatch (ev : emitted) (st : state) : option value * state :=
  (listener ev, record_event ev st).

Definition handleSend (st : state) : option value * state :=
  if negb (truthy (Str (trim (inputText st)))) || isStreaming st then (None, st)
  else
    match dispatch (SendMessage (trim (inputText st))) st with
    | (Some err, st) => (Some err, st)
    | (None, st) => (None, set_inputText [] st)
    end.

Definition handleCombine (st : state) : option value * state := dispatch Combine st.

Definition handleDiscard (st : state) : option value * state := dispatch Discard st.

Definition handleKeydown (key : jstring) (shiftKey : bool) (st : state)
  : bool * (option value * state) :=
  if jstring_eqb key (lit "Enter") && negb shiftKey then (true, handleSend st)
  else (false, (None, st)).

End Handlers.

End SideChatPlain.

(* ================================================================== *)
(** ** TopicSplit banner                                                *)
(* ================================================================== *)

Module TopicSplit.
Import Js.

(** Events handed to [dispatch]. *)
Inductive emitted : Type :=
| CancelSplit
| ConfirmSplit.

Definition emitted_eqb (a b : emitted) : bool :=
  match a, b with
  | CancelSplit, CancelSplit | ConfirmSplit, ConfirmSplit => true
  | _, _ => false
  end.

Inductive phase : Type := Created | Mounted | Destroyed.

(** A timer handle: [setInterval] returns an integer greater than zero. *)
Definition handle : Type := positive.

(** The component ([timeoutMs] prop and the three script variables), the
    events dispatched so far, and the part of the browser the script talks to:
    the intervals still active, each with the [decrement] its callback closed
    over, the next handle [setInterval] will return, and the life-cycle phase. *)
Record state : Type := {
  timeoutMs : float;
  progress : float;
  intervalId : option handle;           (* [None]: still [undefined] *)
  visible : bool;
  dispatched : list emitted;
  timers : list (handle * float);
  next_handle : handle;
  lifecycle : phase
}.

(** The script run at creation. *)
Definition init (timeoutMs' : float) (h : handle) : state :=
  {| timeoutMs := timeoutMs'; progress := 100%float; intervalId := None;
     visible := true; dispatched := []; timers := []; next_handle := h;
     lifecycle := Created |}.

Definition set_progress (p : float) (st : state) : state :=
  {| timeoutMs := timeoutMs st; progress := p; intervalId := intervalId st;
     visible := visible st; dispatched := dispatched st; timers := timers st;
     next_handle := next_handle st; lifecycle := lifecycle st |}.

Definition set_visible (b : bool) (st : state) : state :=
  {| timeoutMs := timeoutMs st; progress := progress st; intervalId := intervalId st;
     visible := b; dispatched := dispatched st; timers := timers st;
     next_handle := next_handle st; lifecycle := lifecycle st |}.

Definition set_lifecycle (ph : phase) (st : state) : state :=
  {| timeoutMs := timeoutMs st; progress := progress st; intervalId := intervalId st;
     visible := visible st; dispatched := dispatched st; timers := timers st;
     next_handle := next_handle st; lifecycle := ph |}.

Definition set_timeoutMs (t : float) (st : state) : state :=
  {| timeoutMs := t; progress := progress st; intervalId := intervalId st;
     visible := visible st; dispatched := dispatched st; timers := timers st;
     next_handle := next_handle st; lifecycle := lifecycle st |}.

Definition dispatch (ev : emitted) (st : state) : state :=
  {| timeoutMs := timeoutMs st; progress := progress st; intervalId := intervalId st;
     visible := visible st; dispatched := dispatched st ++ [ev]; timers := timers st;
     next_handle := next_handle st; lifecycle := lifecycle st |}.

(** [intervalId = setInterval(callback, tickMs)], the callback having closed
    over [decrement]. *)
Definition setInterval_into_intervalId (decrement : float) (st : state) : state :=
  {| timeoutMs := timeoutMs st; progress := progress st;
     intervalId := Some (next_handle st);
     visible := visible st; dispatched := dispatched st;
     timers := timers st ++ [(next_handle st, decrement)];
     next_handle := Pos.succ (next_handle st); lifecycle := lifecycle st |}.

(** [clearInterval(id)]; [clearInterval(undefined)] does nothing. *)
Definition clearInterval (id : option handle) (st : state) : state :=
  match id with
  | None => st
  | Some h =>
      {| timeoutMs := timeoutMs st; progress := progress st; intervalId := intervalId st;
         visible := visible st; dispatched := dispatched st;
         timers := filter (fun t => negb (Pos.eqb (fst t) h)) (timers st);
         next_handle := next_handle st; lifecycle := lifecycle st |}
  end.

Definition tickMs : float := 50%float.

(** [(tickMs / timeoutMs) * 100] *)
Definition decrement_of (timeoutMs' : float) : float :=
  PrimFloat.mul (PrimFloat.div tickMs timeoutMs') 100.

Definition confirmSplit (st : state) : state :=
  let st := set_visible false st in
  dispatch ConfirmSplit st.

Definition cancelSplit (st : state) : state :=
  let st := clearInterval (intervalId st) st in
  let st := set_visible false st in
  dispatch CancelSplit st.

(** The callback given to [setInterval]. *)
Definition on_tick (decrement : float) (st : state) : state :=
  let st := set_progress (PrimFloat.sub (progress st) decrement) st in
  if PrimFloat.leb (progress st) 0 then
    let st := set_progress 0%float st in
    let st := clearInterval (intervalId st) st in
    confirmSplit st
  else st.

Definition onMount (st : state) : state :=
  let decrement := decrement_of (timeoutMs st) in
  setInterval_into_intervalId decrement st.

(** [if (intervalId) clearInterval(intervalId)]: a handle is a non-zero
    number, so truthy; [undefined] is not. *)
Definition onDestroy (st : state) : state :=
  match intervalId st with
  | Some h => clearInterval (Some h) st
  | None => st
  end.

(** What can happen to one banner instance.  [TimerDue h] is the browser
    reaching the moment at which interval [h] is due: it runs the callback
    only if [h] is still in its list of active timers.  The Cancel button is
    inside [{#if visible}], so it can be clicked only while the mounted
    component is visible. *)
Inductive event : Type :=
| Mount
| TimerDue (h : handle)
| ClickCancel
| SetTimeoutMs (t : float)
| Destroy.

Fixpoint active (h : handle) (ts : list (handle * float)) : option float :=
  match ts with
  | [] => None
  | (h', d) :: ts' => if Pos.eqb h' h then Some d else active h ts'
  end.

Definition step (st : state) (ev : event) : state :=
  match ev with
  | Mount =>
      match lifecycle st with
      | Created => onMount (set_lifecycle Mounted st)
      | _ => st
      end
  | TimerDue h =>
      match active h (timers st) with
      | Some decrement => on_tick decrement st
      | None => st
      end
  | ClickCancel =>
      match lifecycle st with
      | Mounted => if visible st then cancelSplit st else st
      | _ => st
      end
  | SetTimeoutMs t =>
      match lifecycle st with
      | Destroyed => st
      | _ => set_timeoutMs t st
      end
  | Destroy =>
      match lifecycle st with
      | Destroyed => st
      | _ => onDestroy (set_lifecycle Destroyed st)
      end
  end.

Definition run (st : state) (evs : list event) : state := fold_left step evs st.

(** How often [ev] was dispatched. *)
Definition count (ev : emitted) (st : state) : nat :=
  List.length (filter (emitted_eqb ev) (dispatched st)).

(** The four shapes a banner instance goes through. *)
Definition fresh (st : state) : Prop :=
  lifecycle st = Created /\ timers st = [] /\ intervalId st = None /\
  visible st = true /\ dispatched st = [].

Definition counting (h : handle) (d : float) (st : state) : Prop :=
  lifecycle st = Mounted /\ timers st = [(h, d)] /\ intervalId st = Some h /\
  visible st = true /\ dispatched st = [].

Definition settled (e : emitted) (st : state) : Prop :=
  lifecycle st <> Created /\ timers st = [] /\ visible st = false /\
  dispatched st = [e].

Definition torn_down (st : state) : Prop :=
  lifecycle st = Destroyed /\ timers st = [] /\ dispatched st = [].

Definition shape (st : state) : Prop :=
  fresh st \/ (exists h d, counting h d st) \/ (exists e, settled e st) \/ torn_down st.

(** The state the tick that reaches zero leaves behind. *)
Definition confirmed_from (st : state) : state :=
  {| timeoutMs := timeoutMs st; progress := 0%float; intervalId := intervalId st;
     visible := false; dispatched := dispatched st ++ [ConfirmSplit]; timers := [];
     next_handle := next_handle st; lifecycle := lifecycle st |}.

(** The deadlines of interval [h] among the events [evs]. *)
Definition is_tick (h : handle) (ev : event) : bool :=
  match ev with
  | TimerDue h' => Pos.eqb h' h
  | _ => false
  end.

Definition ticks_of (h : handle) (evs : list event) : nat :=
  List.length (filter (is_tick h) evs).

(** Events other than a click on Cancel and the teardown. *)
Definition undisturbed (ev : event) : bool :=
  match ev with
  | ClickCancel | Destroy => false
  | _ => true
  end.

(** The value of [progress] after [n] ticks of a live interval that started
    at [p], or [None] once a tick has reached zero. *)
Fixpoint countdown (d : float) (n : nat) (p : float) : option float :=
  match n with
  | O => Some p
  | S k =>
      let p' := PrimFloat.sub p d in
      if PrimFloat.leb p' 0 then None else countdown d k p'
  end.

End TopicSplit.

(* ================================================================== *)
(** ** StepControls over time                                           *)
(* ================================================================== *)

Module StepControlsRun.
Import Js StepControls.

(** The component together with the requests it has issued that have not
    settled yet. *)
Record system : Type := {
  component : state;
  next_in_flight : nat;
  all_in_flight : nat
}.

(** Next is busy exactly while one of its requests is pending. *)
Definition in_step (s : system) : Prop :=
  next_in_flight s = if loading (component s) then 1 else 0.

Definition boot (chatId' : jstring) (currentStep' totalSteps' : float)
  (planSummary' : jstring) : system :=
  {| component := init chatId' currentStep' totalSteps' planSummary';
     next_in_flight := 0; all_in_flight := 0 |}.

(** What can happen: a click on Next (a disabled button receives none), a
    click on "Show all steps", a pending request settling, and the parent
    changing the [chatId] prop. *)
Inductive event : Type :=
| ClickNext
| NextSettles (o : outcome value)
| ClickShowAll
| AllSettles (o : outcome value)
| SetChatId (c : jstring).

Definition set_chatId (c : jstring) (st : state) : state :=
  {| chatId := c; currentStep := currentStep st; totalSteps := totalSteps st;
     planSummary := planSummary st; loading := loading st;
     dispatched := dispatched st; logged := logged st |}.

Section Run.

Variable listener : emitted -> option value.

Definition step (s : system) (ev : event) : system :=
  match ev with
  | ClickNext =>
      if next_disabled (component s) then s
      else
        let '(st, issued) := handleNext_start (component s) in
        {| component := st;
           next_in_flight := if issued then S (next_in_flight s) else next_in_flight s;
           all_in_flight := all_in_flight s |}
  | NextSettles o =>
      match next_in_flight s with
      | O => s
      | S n =>
          {| component := handleNext_resume listener o (component s);
             next_in_flight := n; all_in_flight := all_in_flight s |}
      end
  | ClickShowAll =>
      if negb (truthy (Str (chatId (component s)))) then s
      else {| component := component s; next_in_flight := next_in_flight s;
              all_in_flight := S (all_in_flight s) |}
  | AllSettles o =>
      match all_in_flight s with
      | O => s
      | S n =>
          {| component := handleShowAll_resume listener o (component s);
             next_in_flight := next_in_flight s; all_in_flight := n |}
      end
  | SetChatId c =>
      {| component := set_chatId c (component s);
         next_in_flight := next_in_flight s; all_in_flight := all_in_flight s |}
  end.

Definition run (s : system) (evs : list event) : system := fold_left step evs s.

End Run.

End StepControlsRun.

(* ================================================================== *)
(** ** Observations on the components                                   *)
(* ================================================================== *)

Module Observe.
Import Js.

(** A string that does not start with white space. *)
Definition no_lead (s : jstring) : Prop :=
  match s with
  | [] => True
  | c :: _ => is_ws c = false
  end.

(** A string [trim] leaves alone: white space neither at its start nor at
    its end. *)
Definition trimmed (s : jstring) : Prop := trim s = s.

(** The [sendMessage] events carry a trimmed, non-empty content. *)
Definition well_formed_send (e : SideChat.emitted) : Prop :=
  match e with
  | SideChat.SendMessage c => c <> [] /\ trimmed c
  | _ => True
  end.

(** The [combine] and [discard] events dispatched so far. *)
Definition is_intent (e : SideChat.emitted) : bool :=
  match e with
  | SideChat.Combine | SideChat.Discard => true
  | _ => false
  end.

Definition intents (st : SideChat.state) : nat :=
  List.length (filter is_intent (SideChat.dispatched st)).

(** The [sendMessage] events dispatched so far, and the prop updates among
    [evs] that set a non-empty [messages]. *)
Definition is_send (e : SideChat.emitted) : bool :=
  match e with
  | SideChat.SendMessage _ => true
  | _ => false
  end.

Definition is_update (ev : SideChat.event) : bool :=
  match ev with
  | SideChat.SetMessages (_ :: _) => true
  | _ => false
  end.

Definition updates (evs : list SideChat.event) : nat :=
  List.length (filter is_update evs).

(** While no busy flag is set nothing was asked of the parent; afterwards
    exactly one thing was. *)
Definition one_intent (st : SideChat.state) : Prop :=
  if SideChat.combineLoading st || SideChat.discardLoading st
  then intents st = 1 else intents st = 0.





(** The [sendMessage] events whose listener returned, rather than threw. *)
Definition returned (listener : SideChat.emitted -> option value)
  (e : SideChat.emitted) : bool :=
  match listener e with
  | None => true
  | Some _ => false
  end.

Definition completed_sends (listener : SideChat.emitted -> option value)
  (st : SideChat.state) : nat :=
  List.length (filter (fun e => is_send e && returned listener e)
                 (SideChat.dispatched st)).

(** What of a banner is left when the [timeoutMs] prop is set aside. *)
Definition but_timeoutMs (st : TopicSplit.state) :=
  (TopicSplit.progress st, TopicSplit.intervalId st, TopicSplit.visible st,
   TopicSplit.dispatched st, TopicSplit.timers st, TopicSplit.next_handle st,
   TopicSplit.lifecycle st).

Definition is_SetTimeoutMs (ev : TopicSplit.event) : bool :=
  match ev with
  | TopicSplit.SetTimeoutMs _ => true
  | _ => false
  end.

End Observe.

(* ================================================================== *)
(** * Properties                                                        *)
(* ================================================================== *)

Module JsFacts.
Import Js.

Lemma jstring_eqb_refl (s : jstring) : jstring_eqb s s = true.
Proof.
  induction s as [|c s IH]; simpl; [reflexivity|].
  now rewrite N.eqb_refl, IH.
Qed.

Lemma jstring_eqb_eq (a b : jstring) : jstring_eqb a b = true <-> a = b.
Proof.
  split.
  - revert b; induction a as [|x a IH]; destruct b as [|y b]; simpl;
      try discriminate; [reflexivity|].
    intros H. apply andb_true_iff in H as [Hx Hab].
    apply N.eqb_eq in Hx. apply IH in Hab. now subst.
  - intros ->. apply jstring_eqb_refl.
Qed.

Lemma trim_start_all_ws (s : jstring) :
  forallb is_ws s = true -> trim_start s = [].
Proof.
  induction s as [|c s IH]; simpl; [reflexivity|].
  intros H. apply andb_true_iff in H as [Hc Hs].
  rewrite Hc. now apply IH.
Qed.

Lemma trim_all_ws (s : jstring) : forallb is_ws s = true -> trim s = [].
Proof.
  intros H. unfold trim. rewrite (trim_start_all_ws s H). reflexivity.
Qed.

Lemma truthy_Str (s : jstring) :
  truthy (Str s) = match s with [] => false | _ :: _ => true end.
Proof. destruct s; reflexivity. Qed.

Lemma trim_hello : trim (lit "hello") = lit "hello".
Proof. vm_compute. reflexivity. Qed.

End JsFacts.

Module ApiFacts.
Import Js SideChatApi.

Section Client.

Variable fetch : jstring -> RequestInit -> outcome Response.

(** [call], case by case on what reaches the end of the promise chain. *)
Lemma call_cases (url : jstring) (init : RequestInit) (w : world) :
  call fetch url init w =
  match and_then (fetch url init) on_response with
  | Fulfilled v => (Fulfilled v, after_fetch url init w)
  | Rejected e =>
      (if truthy e then Rejected e else Fulfilled Null,
       console_error e (after_fetch url init w))
  end.
Proof.
  unfold call, do_fetch, after_fetch.
  destruct (and_then (fetch url init) on_response) as [v|e]; simpl; [reflexivity|].
  destruct (truthy e); reflexivity.
Qed.

(** A failure of kind [k] with value [e] reaches the catch handler as [e]. *)
Lemma failing_reaches_catch (k : failure) (e : value) :
  and_then (failing k e) on_response = Rejected e.
Proof. destruct k as [| |[|]]; reflexivity. Qed.

End Client.

(** Every operation is one [call]. *)
Lemma perform_is_call base stringify fetch op token :
  exists url init, perform base stringify fetch op token = call fetch url init.
Proof. destruct op; simpl; eexists; eexists; reflexivity. Qed.

(** A failure whose value is truthy is logged and thrown to the caller. *)
Lemma truthy_failure_is_thrown base stringify op token k e w :
  truthy e = true ->
  let r := perform base stringify (fun _ _ => failing k e) op token w in
  fst r = Rejected e /\ logged (snd r) = logged w ++ [e].
Proof.
  intros He.
  destruct (perform_is_call base stringify (fun _ _ => failing k e) op token)
    as (url & init & ->).
  rewrite call_cases, failing_reaches_catch, He. split; reflexivity.
Qed.

(** A successful response resolves with its parsed body and logs nothing. *)
Lemma success_resolves base stringify op token v w :
  let r := perform base stringify
             (fun _ _ => Fulfilled {| ok := true; json := Fulfilled v |}) op token w in
  fst r = Fulfilled v /\ logged (snd r) = logged w.
Proof.
  destruct (perform_is_call base stringify
              (fun _ _ => Fulfilled {| ok := true; json := Fulfilled v |}) op token)
    as (url & init & ->).
  rewrite call_cases. split; reflexivity.
Qed.

(** C1.  The catch handler stores the caught value in [error] and the
    function then tests [if (error)]: for each of the five functions and each
    kind of failure (network, non-success status, body parse), a caught value
    that is falsy is logged but not thrown; the function resolves with [null]. *)
Theorem falsy_failure_resolves_null base stringify op token k e w :
  truthy e = false ->
  let r := perform base stringify (fun _ _ => failing k e) op token w in
  fst r = Fulfilled Null /\ logged (snd r) = logged w ++ [e].
Proof.
  intros He.
  destruct (perform_is_call base stringify (fun _ _ => failing k e) op token)
    as (url & init & ->).
  rewrite call_cases, failing_reaches_catch, He. split; reflexivity.
Qed.

Lemma falsy_failure_resolves_null_witness :
  truthy (Num 0%float) = false /\
  let r := perform (lit "/api/v1") (fun _ => lit "{}")
             (fun _ _ => failing HttpFailure (Num 0%float))
             (CombineOp (lit "sc1")) (Some (lit "tok"))
             {| sent := []; logged := [] |} in
  fst r = Fulfilled Null /\ logged (snd r) = [] ++ [Num 0%float].
Proof.
  split; [reflexivity|].
  apply (falsy_failure_resolves_null (lit "/api/v1") (fun _ => lit "{}")
           (CombineOp (lit "sc1")) (Some (lit "tok")) HttpFailure
           (Num 0%float) {| sent := []; logged := [] |}).
  reflexivity.
Defined.

(** C2.  A non-2xx response whose body parses to [null]: each of the five
    functions resolves with [null] instead of throwing the parsed body. *)
Theorem non_ok_null_body_resolves base stringify op token w :
  fst (perform base stringify
         (fun _ _ => Fulfilled {| ok := false; json := Fulfilled Null |})
         op token w)
  = Fulfilled Null.
Proof.
  destruct (perform_is_call base stringify
              (fun _ _ => Fulfilled {| ok := false; json := Fulfilled Null |}) op token)
    as (url & init & ->).
  rewrite call_cases. reflexivity.
Qed.

(** A non-2xx response whose body parses to a truthy value: that value is
    thrown. *)
Lemma non_ok_truthy_body_is_thrown base stringify op token parsed w :
  truthy parsed = true ->
  fst (perform base stringify
         (fun _ _ => Fulfilled {| ok := false; json := Fulfilled parsed |})
         op token w)
  = Rejected parsed.
Proof.
  intros H.
  apply (truthy_failure_is_thrown base stringify op token HttpFailure parsed w H).
Qed.

(** The request each operation builds. *)
Lemma perform_sends base stringify fetch op token w :
  sent (snd (perform base stringify fetch op token w)) =
  sent w ++
  [match op with
   | Create b =>
       (base ++ lit "/side-chats/",
        {| method := lit "POST"; headers := base_headers token;
           body := Some (stringify b) |})
   | ListByChat c =>
       (base ++ lit "/side-chats/by-chat/" ++ c,
        {| method := lit "GET"; headers := base_headers token; body := None |})
   | AddMessage i b =>
       (base ++ lit "/side-chats/" ++ i ++ lit "/messages",
        {| method := lit "POST"; headers := base_headers token;
           body := Some (stringify b) |})
   | CombineOp i =>
       (base ++ lit "/side-chats/" ++ i ++ lit "/combine",
        {| method := lit "POST"; headers := base_headers token; body := None |})
   | Delete i =>
       (base ++ lit "/side-chats/" ++ i,
        {| method := lit "DELETE"; headers := base_headers token; body := None |})
   end].
Proof.
  destruct op; simpl;
    unfold createSideChat, getSideChatsByChatId, addSideChatMessage,
           combineSideChat, deleteSideChat;
    rewrite call_cases;
    match goal with
    | |- context [and_then ?p on_response] => destruct (and_then p on_response)
    end; reflexivity.
Qed.

Lemma authorization_header (token : option jstring) :
  header_get (lit "Authorization") (base_headers token) =
  match token with
  | Some (c :: t) => Some (lit "Bearer " ++ c :: t)
  | _ => None
  end.
Proof. destruct token as [[|c t]|]; reflexivity. Qed.

Example create_with_token_sends :
  sent (snd (createSideChat (lit "/api/v1") (fun _ => lit "{}")
               (fun _ _ => Fulfilled {| ok := true; json := Fulfilled Null |})
               (Some (lit "abc")) (Obj []) {| sent := []; logged := [] |})) =
  [(lit "/api/v1/side-chats/",
    {| method := lit "POST";
       headers := [(lit "Accept", lit "application/json");
                   (lit "Content-Type", lit "application/json");
                   (lit "authorization", lit "Bearer abc")];
       body := Some (lit "{}") |})].
Proof. reflexivity. Qed.

Example delete_without_token_sends :
  sent (snd (deleteSideChat (lit "/api/v1")
               (fun _ _ => Fulfilled {| ok := true; json := Fulfilled Null |})
               (Some []) (lit "sc1") {| sent := []; logged := [] |})) =
  [(lit "/api/v1/side-chats/sc1",
    {| method := lit "DELETE";
       headers := [(lit "Accept", lit "application/json");
                   (lit "Content-Type", lit "application/json")];
       body := None |})].
Proof. reflexivity. Qed.

(** C7.  Each of the five functions hands [fetch] exactly one request.  Its
    [Accept] and [Content-Type] headers are [application/json]; it has an
    [Authorization] header, of value [Bearer <token>], exactly when the token
    is a non-empty string, and none when the token is empty or not given; and
    the body of [createSideChat] and [addSideChatMessage] is
    [JSON.stringify] of the body they were given, the other three sending no
    body. *)
Theorem request_carries_token_and_body base stringify fetch op token w :
  exists url init,
    sent (snd (perform base stringify fetch op token w)) = sent w ++ [(url, init)] /\
    header_get (lit "Accept") (headers init) = Some (lit "application/json") /\
    header_get (lit "Content-Type") (headers init) = Some (lit "application/json") /\
    header_get (lit "Authorization") (headers init) =
      match token with
      | Some (c :: t) => Some (lit "Bearer " ++ c :: t)
      | _ => None
      end /\
    body init =
      match op with
      | Create b | AddMessage _ b => Some (stringify b)
      | _ => None
      end.
Proof.
  rewrite perform_sends.
  destruct op; eexists; eexists; (split; [reflexivity|]); simpl headers; simpl body;
    (repeat split; try reflexivity; apply authorization_header).
Qed.

End ApiFacts.

Module StepFacts.
Import Js StepControls.

(** The [finally] block: whatever the request settled with, and whatever the
    parent's listener does, [loading] is false afterwards. *)
Lemma resume_clears_loading listener o st :
  loading (handleNext_resume listener o st) = false.
Proof. reflexivity. Qed.

Lemma start_when_idle st :
  loading st = false -> chatId st <> [] ->
  handleNext_start st = (set_loading true st, true).
Proof.
  intros Hl Hc. unfold handleNext_start.
  rewrite Hl, JsFacts.truthy_Str. destruct (chatId st); [congruence|reflexivity].
Qed.

(** A rejected request dispatches nothing and logs the error. *)
Lemma resume_rejected listener err st :
  dispatched (handleNext_resume listener (Rejected err) st) = dispatched st /\
  logged (handleNext_resume listener (Rejected err) st) =
    logged st ++ [[Str (lit "nextStep failed:"); err]].
Proof. split; reflexivity. Qed.

(** A fulfilled request dispatches [nextStep] with the result. *)
Lemma resume_fulfilled listener res st :
  dispatched (handleNext_resume listener (Fulfilled res) st) =
  dispatched st ++ [NextStep res].
Proof.
  unfold handleNext_resume, dispatch. destruct (listener (NextStep res)); reflexivity.
Qed.

(** C8.  With the component idle and a chat id set, [handleNext] sets
    [loading] (the Next button is disabled while the request is in flight),
    and once the request has settled, fulfilled or rejected, in whatever state
    [st'] the component is by then, the [finally] block has cleared [loading]
    and the Next button is enabled again; the same holds of [handleNext] run
    in one go. *)
Theorem loading_cleared_whatever_the_outcome
  token nextStep listener st :
  loading st = false -> chatId st <> [] ->
  let '(st1, issued) := handleNext_start st in
  issued = true /\ loading st1 = true /\ next_disabled st1 = true /\
  (forall o st', loading (handleNext_resume listener o st') = false /\
                 next_disabled (handleNext_resume listener o st') = false) /\
  loading (handleNext token nextStep listener st) = false /\
  next_disabled (handleNext token nextStep listener st) = false.
Proof.
  intros Hl Hc. unfold handleNext.
  rewrite (start_when_idle st Hl Hc).
  repeat split; reflexivity.
Qed.

Lemma loading_cleared_whatever_the_outcome_witness :
  let st := init (lit "chat-1") 1%float 3%float [] in
  let token := Str (lit "tok") in
  let nextStep := fun (_ : value) (_ : jstring) => @Rejected value (Str (lit "boom")) in
  let listener := fun _ : emitted => @None value in
  loading st = false /\ chatId st <> [] /\
  loading (handleNext token nextStep listener st) = false.
Proof.
  cbv zeta.
  assert (Hl : loading (init (lit "chat-1") 1%float 3%float []) = false) by reflexivity.
  assert (Hc : chatId (init (lit "chat-1") 1%float 3%float []) <> []) by discriminate.
  split; [exact Hl|]. split; [exact Hc|].
  pose proof (loading_cleared_whatever_the_outcome
                (Str (lit "tok"))
                (fun (_ : value) (_ : jstring) => @Rejected value (Str (lit "boom")))
                (fun _ : emitted => @None value)
                (init (lit "chat-1") 1%float 3%float []) Hl Hc) as H.
  destruct (handleNext_start (init (lit "chat-1") 1%float 3%float [])) as [st1 issued].
  exact (proj1 (proj2 (proj2 (proj2 (proj2 H))))).
Defined.

End StepFacts.

Module PanelFacts.
Import Js SideChat.

(** [handleSend], case by case: the guard, then what the listener does. *)
Lemma handleSend_cases listener st :
  (handleSend listener st = (None, st) /\
   (trim (inputText st) = [] \/ isStreaming st = true)) \/
  (trim (inputText st) <> [] /\ isStreaming st = false /\
   handleSend listener st =
     match listener (SendMessage (trim (inputText st))) with
     | Some err => (Some err, record_event (SendMessage (trim (inputText st))) st)
     | None =>
         (None, scrollToBottom
                  (set_inputText [] (record_event (SendMessage (trim (inputText st))) st)))
     end).
Proof.
  unfold handleSend, dispatch. rewrite JsFacts.truthy_Str.
  destruct (trim (inputText st)) as [|c t]; simpl.
  - left. split; [reflexivity|left; reflexivity].
  - destruct (isStreaming st).
    + left. split; [reflexivity|right; reflexivity].
    + right. split; [discriminate|]. split; [reflexivity|].
      destruct (listener (SendMessage (c :: t))); reflexivity.
Qed.

(** [handleSend] writes neither busy flag nor [isStreaming]. *)
Lemma handleSend_keeps listener st :
  combineLoading (snd (handleSend listener st)) = combineLoading st /\
  discardLoading (snd (handleSend listener st)) = discardLoading st /\
  isStreaming (snd (handleSend listener st)) = isStreaming st.
Proof.
  destruct (handleSend_cases listener st) as [(-> & _) | (_ & _ & ->)];
    [repeat split|].
  destruct (listener (SendMessage (trim (inputText st)))); repeat split.
Qed.

(** No handler and no prop update assigns [false] to a busy flag. *)
Lemma step_keeps_combineLoading listener st ev :
  combineLoading st = true -> combineLoading (step listener st ev) = true.
Proof.
  intros H. destruct (handleSend_keeps listener st) as (Hc & _ & _).
  destruct ev; unfold step, user_step, react_messages, handleKeydown,
    handleCombine, handleDiscard, handleClose, dispatch;
    repeat match goal with
           | |- context [if ?b then _ else _] => destruct b
           | |- context [match ?l with nil => _ | _ => _ end] => destruct l
           end; simpl; auto; congruence.
Qed.

Lemma step_keeps_discardLoading listener st ev :
  discardLoading st = true -> discardLoading (step listener st ev) = true.
Proof.
  intros H. destruct (handleSend_keeps listener st) as (_ & Hd & _).
  destruct ev; unfold step, user_step, react_messages, handleKeydown,
    handleCombine, handleDiscard, handleClose, dispatch;
    repeat match goal with
           | |- context [if ?b then _ else _] => destruct b
           | |- context [match ?l with nil => _ | _ => _ end] => destruct l
           end; simpl; auto; congruence.
Qed.

Lemma run_keeps_combineLoading listener evs : forall st,
  combineLoading st = true -> combineLoading (run listener st evs) = true.
Proof.
  induction evs as [|ev evs IH]; intros st H; simpl; [exact H|].
  apply IH, step_keeps_combineLoading, H.
Qed.

Lemma run_keeps_discardLoading listener evs : forall st,
  discardLoading st = true -> discardLoading (run listener st evs) = true.
Proof.
  induction evs as [|ev evs IH]; intros st H; simpl; [exact H|].
  apply IH, step_keeps_discardLoading, H.
Qed.

(** [isStreaming] is never assigned: it is false in every state the
    component reaches. *)
Lemma step_keeps_isStreaming listener st ev :
  isStreaming (step listener st ev) = isStreaming st.
Proof.
  destruct (handleSend_keeps listener st) as (_ & _ & Hs).
  destruct ev; unfold step, user_step, react_messages, handleKeydown,
    handleCombine, handleDiscard, handleClose, dispatch;
    repeat match goal with
           | |- context [if ?b then _ else _] => destruct b
           | |- context [match ?l with nil => _ | _ => _ end] => destruct l
           end; simpl; auto.
Qed.

Lemma never_streaming listener n c ms o evs :
  isStreaming (run listener (init n c ms o) evs) = false.
Proof.
  assert (G : forall st, isStreaming st = false ->
                         isStreaming (run listener st evs) = false).
  { induction evs as [|ev evs IH]; intros st H; simpl; [exact H|].
    apply IH. now rewrite step_keeps_isStreaming. }
  apply G. unfold init, react_messages. destruct ms; reflexivity.
Qed.

(** C3.  In the SideChat panel, [handleCombine] sets [combineLoading] and
    [handleDiscard] sets [discardLoading], and nothing that can happen to the
    component afterwards resets them: after either handler, in every later
    state, the flag is still set and both the Combine and the Discard button
    are disabled. *)
Theorem busy_flags_of_panel_stay_set listener st evs :
  (combineLoading (run listener (snd (handleCombine listener st)) evs) = true /\
   combine_disabled (run listener (snd (handleCombine listener st)) evs) = true /\
   discard_disabled (run listener (snd (handleCombine listener st)) evs) = true) /\
  (discardLoading (run listener (snd (handleDiscard listener st)) evs) = true /\
   combine_disabled (run listener (snd (handleDiscard listener st)) evs) = true /\
   discard_disabled (run listener (snd (handleDiscard listener st)) evs) = true).
Proof.
  assert (Hc : combineLoading (run listener (snd (handleCombine listener st)) evs) = true)
    by (apply run_keeps_combineLoading; reflexivity).
  assert (Hd : discardLoading (run listener (snd (handleDiscard listener st)) evs) = true)
    by (apply run_keeps_discardLoading; reflexivity).
  unfold combine_disabled, discard_disabled. rewrite Hc, Hd.
  repeat split; try reflexivity; apply orb_true_r.
Qed.

Lemma handleSend_blank listener st :
  trim (inputText st) = [] -> handleSend listener st = (None, st).
Proof. intros H. unfold handleSend. rewrite H. reflexivity. Qed.

Lemma plain_handleSend_blank listener st :
  trim (SideChatPlain.inputText st) = [] ->
  SideChatPlain.handleSend listener st = (None, st).
Proof. intros H. unfold SideChatPlain.handleSend. rewrite H. reflexivity. Qed.

(** C6, amended.  In both variants of the panel, in any state the
    component reaches and whatever the parent's listeners do: with an input
    made of white space only (or empty), [handleSend] changes nothing,
    dispatches nothing and throws nothing.  With the input [hello] it
    dispatches [sendMessage] with [{ content: "hello" }]; if the listener
    returns, it then sets the input to the empty string (the first variant
    also asks to scroll to the bottom) and nothing else changes; if the
    listener throws, [handleSend] throws what the listener threw and the
    input is still [hello]. *)
Theorem send_blank_is_noop_and_hello_is_sent listener plistener n c ms o evs s d :
  forallb is_ws s = true ->
  let st := run listener (init n c ms o) evs in
  let pst := {| SideChatPlain.inputText := s; SideChatPlain.isStreaming := false;
                SideChatPlain.dispatched := d |} in
  handleSend listener (set_inputText s st) = (None, set_inputText s st) /\
  SideChatPlain.handleSend plistener pst = (None, pst) /\
  (listener (SendMessage (lit "hello")) = None ->
   handleSend listener (set_inputText (lit "hello") st) =
     (None,
      {| stepNumber := stepNumber st; stepContent := stepContent st;
         messages := messages st; isOpen := isOpen st;
         inputText := []; isStreaming := false;
         combineLoading := combineLoading st; discardLoading := discardLoading st;
         dispatched := dispatched st ++ [SendMessage (lit "hello")];
         scrolls := S (scrolls st) |})) /\
  (plistener (SideChatPlain.SendMessage (lit "hello")) = None ->
   SideChatPlain.handleSend plistener (SideChatPlain.set_inputText (lit "hello") pst) =
     (None,
      {| SideChatPlain.inputText := []; SideChatPlain.isStreaming := false;
         SideChatPlain.dispatched := d ++ [SideChatPlain.SendMessage (lit "hello")] |})) /\
  (forall err, listener (SendMessage (lit "hello")) = Some err ->
   handleSend listener (set_inputText (lit "hello") st) =
     (Some err,
      {| stepNumber := stepNumber st; stepContent := stepContent st;
         messages := messages st; isOpen := isOpen st;
         inputText := lit "hello"; isStreaming := false;
         combineLoading := combineLoading st; discardLoading := discardLoading st;
         dispatched := dispatched st ++ [SendMessage (lit "hello")];
         scrolls := scrolls st |})) /\
  (forall err, plistener (SideChatPlain.SendMessage (lit "hello")) = Some err ->
   SideChatPlain.handleSend plistener (SideChatPlain.set_inputText (lit "hello") pst) =
     (Some err,
      {| SideChatPlain.inputText := lit "hello"; SideChatPlain.isStreaming := false;
         SideChatPlain.dispatched := d ++ [SideChatPlain.SendMessage (lit "hello")] |})).
Proof.
  intros Hs st pst.
  pose proof (JsFacts.trim_all_ws s Hs) as Ht.
  assert (Hn : isStreaming st = false) by apply never_streaming.
  split; [apply handleSend_blank; exact Ht|].
  split; [apply plain_handleSend_blank; exact Ht|].
  assert (Hf : forall r, listener (SendMessage (lit "hello")) = r ->
             handleSend listener (set_inputText (lit "hello") st) =
             match r with
             | Some err =>
                 (Some err, record_event (SendMessage (lit "hello"))
                              (set_inputText (lit "hello") st))
             | None =>
                 (None, scrollToBottom
                          (set_inputText []
                             (record_event (SendMessage (lit "hello"))
                                (set_inputText (lit "hello") st))))
             end).
  { intros r Hr. unfold handleSend, dispatch. simpl inputText.
    simpl isStreaming. rewrite JsFacts.trim_hello, Hn, Hr.
    destruct r; reflexivity. }
  assert (Hp : forall r, plistener (SideChatPlain.SendMessage (lit "hello")) = r ->
             SideChatPlain.handleSend plistener
               (SideChatPlain.set_inputText (lit "hello") pst) =
             match r with
             | Some err =>
                 (Some err,
                  SideChatPlain.record_event (SideChatPlain.SendMessage (lit "hello"))
                    (SideChatPlain.set_inputText (lit "hello") pst))
             | None =>
                 (None,
                  SideChatPlain.set_inputText []
                    (SideChatPlain.record_event (SideChatPlain.SendMessage (lit "hello"))
                       (SideChatPlain.set_inputText (lit "hello") pst)))
             end).
  { intros r Hr. unfold SideChatPlain.handleSend, SideChatPlain.dispatch.
    simpl SideChatPlain.inputText. simpl SideChatPlain.isStreaming.
    rewrite JsFacts.trim_hello, Hr. destruct r; reflexivity. }
  split; [|split; [|split]].
  - intros Hl. rewrite (Hf None Hl).
    unfold scrollToBottom, set_inputText, record_event; simpl. now rewrite Hn.
  - intros Hl. rewrite (Hp None Hl). reflexivity.
  - intros err Hl. rewrite (Hf (Some err) Hl).
    unfold set_inputText, record_event; simpl. now rewrite Hn.
  - intros err Hl. rewrite (Hp (Some err) Hl). reflexivity.
Qed.

Lemma send_blank_is_noop_and_hello_is_sent_witness :
  let quiet := fun _ : emitted => @None value in
  let s := lit "  " ++ [9; 160; 8195]%N in
  let st := run quiet (init 2%float (lit "Boil water") [] true)
                [TypeText (lit "hi"); ClickSend; ClickCombine] in
  forallb is_ws s = true /\
  handleSend quiet (set_inputText s st) = (None, set_inputText s st) /\
  dispatched (snd (handleSend quiet (set_inputText (lit "hello") st))) =
    [SendMessage (lit "hi"); Combine; SendMessage (lit "hello")] /\
  inputText (snd (handleSend quiet (set_inputText (lit "hello") st))) = [].
Proof.
  cbv zeta.
  assert (Hs : forallb is_ws (lit "  " ++ [9; 160; 8195]%N) = true) by reflexivity.
  split; [exact Hs|].
  pose proof (send_blank_is_noop_and_hello_is_sent
                (fun _ : emitted => @None value)
                (fun _ : SideChatPlain.emitted => @None value)
                2%float (lit "Boil water") [] true
                [TypeText (lit "hi"); ClickSend; ClickCombine]
                (lit "  " ++ [9; 160; 8195]%N) [] Hs) as H.
  cbv zeta in H. destruct H as (H1 & _ & H3 & _).
  split; [exact H1|]. rewrite (H3 eq_refl). split; reflexivity.
Defined.

(** C6, counterexample.  With a [sendMessage] listener that throws,
    [handleSend] on the input [hello] dispatches the event and is left by the
    exception before [inputText = '']: the input is not reset. *)
Lemma throwing_listener_leaves_input :
  let angry := fun _ : emitted => Some (Str (lit "boom")) in
  let st := set_inputText (lit "hello") (init 1%float [] [] true) in
  fst (handleSend angry st) = Some (Str (lit "boom")) /\
  dispatched (snd (handleSend angry st)) = [SendMessage (lit "hello")] /\
  inputText (snd (handleSend angry st)) = lit "hello" /\
  inputText (snd (handleSend angry st)) <> [].
Proof. cbv zeta. repeat split. discriminate. Qed.

(** C9.  Whenever [combineLoading] or [discardLoading] is set, the Combine
    and the Discard button are both disabled, and a click on either does
    nothing; the Send button's [disabled] attribute is a function of the input
    text and [isStreaming] alone, unchanged by any value of the two flags. *)
Theorem combine_discard_exclude_send_independent listener st :
  combineLoading st || discardLoading st = true ->
  (combine_disabled st = true /\ discard_disabled st = true) /\
  (step listener st ClickCombine = st /\ step listener st ClickDiscard = st) /\
  (forall b1 b2,
     send_disabled (set_combineLoading b1 (set_discardLoading b2 st)) = send_disabled st) /\
  (forall st', inputText st' = inputText st -> isStreaming st' = isStreaming st ->
     send_disabled st' = send_disabled st).
Proof.
  intros H. unfold step, user_step. unfold combine_disabled, discard_disabled. rewrite H.
  repeat split; try reflexivity.
  - destruct (isOpen st); reflexivity.
  - destruct (isOpen st); reflexivity.
  - intros st' Hi Hs. unfold send_disabled. now rewrite Hi, Hs.
Qed.

Lemma combine_discard_exclude_send_independent_witness :
  let quiet := fun _ : emitted => @None value in
  let st := snd (handleDiscard quiet (init 1%float [] [] true)) in
  combineLoading st || discardLoading st = true /\
  combine_disabled st = true /\ discard_disabled st = true /\
  send_disabled (set_inputText (lit "hello") st) = false.
Proof.
  cbv zeta.
  assert (H : combineLoading (snd (handleDiscard (fun _ : emitted => @None value)
                                     (init 1%float [] [] true)))
              || discardLoading (snd (handleDiscard (fun _ : emitted => @None value)
                                        (init 1%float [] [] true))) = true)
    by reflexivity.
  split; [exact H|].
  pose proof (combine_discard_exclude_send_independent
                (fun _ : emitted => @None value)
                (snd (handleDiscard (fun _ : emitted => @None value)
                        (init 1%float [] [] true))) H) as G.
  split; [exact (proj1 (proj1 G))|]. split; [exact (proj2 (proj1 G))|].
  reflexivity.
Defined.

End PanelFacts.

Module BannerFacts.
Import Js TopicSplit.

Lemma clear_own_timer (h : handle) (d : float) :
  filter (fun t : handle * float => negb (Pos.eqb (fst t) h)) [(h, d)] = [].
Proof. simpl. rewrite Pos.eqb_refl. reflexivity. Qed.

Lemma run_app st evs1 evs2 : run st (evs1 ++ evs2) = run (run st evs1) evs2.
Proof. apply fold_left_app. Qed.

Lemma init_fresh t h : fresh (init t h).
Proof. repeat split. Qed.

(** Mounting starts the one interval, with the decrement of the current
    [timeoutMs]. *)
Lemma mount_counting st :
  fresh st -> counting (next_handle st) (decrement_of (timeoutMs st)) (step st Mount).
Proof.
  destruct st as [t p iid vis disp tms nh lc]; unfold fresh, counting; simpl.
  intros (-> & -> & -> & -> & ->). simpl. repeat split.
Qed.

(** One tick of the live interval. *)
Lemma tick_counting h d st :
  counting h d st ->
  step st (TimerDue h) =
  if PrimFloat.leb (PrimFloat.sub (progress st) d) 0
  then confirmed_from st
  else set_progress (PrimFloat.sub (progress st) d) st.
Proof.
  destruct st as [t p iid vis disp tms nh lc]; unfold counting; simpl.
  intros (-> & -> & -> & -> & ->). simpl. rewrite Pos.eqb_refl.
  unfold on_tick. simpl.
  destruct (PrimFloat.leb (PrimFloat.sub p d) 0); [|reflexivity].
  unfold confirmSplit, confirmed_from, clearInterval, set_visible, dispatch; simpl.
  rewrite Pos.eqb_refl. reflexivity.
Qed.

Lemma tick_counting_shape h d st :
  counting h d st ->
  counting h d (step st (TimerDue h)) \/ settled ConfirmSplit (step st (TimerDue h)).
Proof.
  intros H. rewrite (tick_counting h d st H).
  destruct H as (Hl & Ht & Hi & Hv & Hd).
  destruct (PrimFloat.leb (PrimFloat.sub (progress st) d) 0).
  - right. unfold settled, confirmed_from; simpl. rewrite Hl, Hd.
    repeat split; congruence.
  - left. unfold counting; simpl. repeat split; assumption.
Qed.

(** Once an event has been dispatched, no step dispatches anything more. *)
Lemma settled_step e st ev :
  settled e st -> settled e (step st ev).
Proof.
  destruct st as [t p iid vis disp tms nh lc]; unfold settled; simpl.
  intros (Hl & -> & -> & ->).
  destruct ev; simpl.
  - destruct lc; simpl; repeat split; congruence.
  - repeat split; congruence.
  - destruct lc; simpl; repeat split; congruence.
  - destruct lc; simpl; repeat split; congruence.
  - destruct lc; simpl; [congruence| |repeat split; congruence].
    unfold onDestroy; simpl. destruct iid; simpl; repeat split; congruence.
Qed.

Lemma settled_run e evs : forall st, settled e st -> settled e (run st evs).
Proof.
  induction evs as [|ev evs IH]; intros st H; simpl; [exact H|].
  apply IH, settled_step, H.
Qed.

Lemma torn_down_step st ev : torn_down st -> torn_down (step st ev).
Proof.
  destruct st as [t p iid vis disp tms nh lc]; unfold torn_down; simpl.
  intros (-> & -> & ->). destruct ev; simpl; repeat split.
Qed.

Lemma torn_down_run evs : forall st, torn_down st -> torn_down (run st evs).
Proof.
  induction evs as [|ev evs IH]; intros st H; simpl; [exact H|].
  apply IH, torn_down_step, H.
Qed.

Lemma step_shape st ev : shape st -> shape (step st ev).
Proof.
  intros [H | [(h & d & H) | [(e & H) | H]]].
  - (* fresh *)
    destruct ev.
    + right; left. eexists; eexists. apply mount_counting, H.
    + left. destruct st as [tm p iid vis disp tms nh lc]; unfold fresh in *; simpl in *.
      destruct H as (-> & -> & -> & -> & ->). repeat split.
    + left. destruct st as [tm p iid vis disp tms nh lc]; unfold fresh in *; simpl in *.
      destruct H as (-> & -> & -> & -> & ->). repeat split.
    + left. destruct st as [tm p iid vis disp tms nh lc]; unfold fresh in *; simpl in *.
      destruct H as (-> & -> & -> & -> & ->). repeat split.
    + right; right; right.
      destruct st as [tm p iid vis disp tms nh lc]; unfold fresh, torn_down in *; simpl in *.
      destruct H as (-> & -> & -> & -> & ->). repeat split.
  - (* counting *)
    destruct ev.
    + right; left. exists h, d.
      destruct st as [tm p iid vis disp tms nh lc]; unfold counting in *; simpl in *.
      destruct H as (-> & -> & -> & -> & ->). repeat split.
    + destruct (Pos.eqb_spec h h0) as [<- | Hne].
      * destruct (tick_counting_shape h d st H) as [G | G].
        -- right; left. exists h, d. exact G.
        -- right; right; left. exists ConfirmSplit. exact G.
      * right; left. exists h, d.
        destruct st as [tm p iid vis disp tms nh lc]; unfold counting in *; simpl in *.
        destruct H as (-> & -> & -> & -> & ->). simpl.
        destruct (Pos.eqb_spec h h0); [contradiction|]. repeat split.
    + right; right; left. exists CancelSplit.
      destruct st as [tm p iid vis disp tms nh lc]; unfold counting, settled in *; simpl in *.
      destruct H as (-> & -> & -> & -> & ->). simpl. rewrite Pos.eqb_refl.
      repeat split; discriminate.
    + right; left. exists h, d.
      destruct st as [tm p iid vis disp tms nh lc]; unfold counting in *; simpl in *.
      destruct H as (-> & -> & -> & -> & ->). repeat split.
    + right; right; right.
      destruct st as [tm p iid vis disp tms nh lc]; unfold counting, torn_down in *; simpl in *.
      destruct H as (-> & -> & -> & -> & ->). simpl. rewrite Pos.eqb_refl.
      repeat split.
  - right; right; left. exists e. apply settled_step, H.
  - right; right; right. apply torn_down_step, H.
Qed.

Lemma run_shape evs : forall st, shape st -> shape (run st evs).
Proof.
  induction evs as [|ev evs IH]; intros st H; simpl; [exact H|].
  apply IH, step_shape, H.
Qed.

Lemma reachable_shape t h evs : shape (run (init t h) evs).
Proof. apply run_shape. left. apply init_fresh. Qed.

Lemma confirmed_settled h d st :
  counting h d st -> settled ConfirmSplit (confirmed_from st).
Proof.
  intros (Hl & Ht & Hi & Hv & Hd). unfold settled, confirmed_from; simpl.
  rewrite Hl, Hd. repeat split; congruence.
Qed.

Lemma no_timer_no_tick st h : timers st = [] -> step st (TimerDue h) = st.
Proof. intros H. simpl. rewrite H. reflexivity. Qed.

Lemma no_timer_no_ticks h n : forall st,
  timers st = [] -> run st (repeat (TimerDue h) n) = st.
Proof.
  induction n as [|n IH]; intros st H; [reflexivity|].
  change (run st (repeat (TimerDue h) (S n)))
    with (run (step st (TimerDue h)) (repeat (TimerDue h) n)).
  rewrite (no_timer_no_tick st h H). apply IH, H.
Qed.

(** [n] ticks of the live interval, in closed form. *)
Lemma run_ticks h d n : forall st,
  counting h d st ->
  run st (repeat (TimerDue h) n) =
  match countdown d n (progress st) with
  | Some p => set_progress p st
  | None => confirmed_from st
  end.
Proof.
  induction n as [|n IH]; intros st H.
  - simpl. destruct st; reflexivity.
  - change (run st (repeat (TimerDue h) (S n)))
      with (run (step st (TimerDue h)) (repeat (TimerDue h) n)).
    rewrite (tick_counting h d st H). simpl countdown.
    destruct (PrimFloat.leb (PrimFloat.sub (progress st) d) 0) eqn:E.
    + apply no_timer_no_ticks. reflexivity.
    + rewrite IH.
      * simpl progress. destruct (countdown d n (PrimFloat.sub (progress st) d));
          destruct st; reflexivity.
      * destruct H as (Hl & Ht & Hi & Hv & Hd). repeat split; assumption.
Qed.


(** With the default [timeoutMs] of 5000 the decrement is 1, and the
    hundredth tick is the one that reaches zero. *)
Lemma decrement_default : decrement_of 5000 = 1%float.
Proof. vm_compute. reflexivity. Qed.

Example countdown_default :
  countdown (decrement_of 5000) 99 100 = Some 1%float /\
  countdown (decrement_of 5000) 100 100 = None.
Proof. split; vm_compute; reflexivity. Qed.

(** In binary64 arithmetic, with [timeoutMs = 300], six ticks leave a positive
    remainder and it is the seventh that confirms. *)
Example countdown_300 :
  (exists p, countdown (decrement_of 300) 6 100 = Some p) /\
  countdown (decrement_of 300) 7 100 = None.
Proof. split; [eexists|]; vm_compute; reflexivity. Qed.

Lemma settled_step_progress e st ev :
  settled e st -> progress (step st ev) = progress st.
Proof.
  destruct st as [tm p iid vis disp tms nh lc]; unfold settled; simpl.
  intros (Hl & -> & -> & ->).
  destruct ev; simpl.
  - destruct lc; reflexivity.
  - reflexivity.
  - destruct lc; reflexivity.
  - destruct lc; reflexivity.
  - destruct lc; simpl; try reflexivity;
      unfold onDestroy; simpl; destruct iid; reflexivity.
Qed.

Lemma settled_run_progress e evs : forall st,
  settled e st -> progress (run st evs) = progress st.
Proof.
  induction evs as [|ev evs IH]; intros st H; simpl; [reflexivity|].
  rewrite (IH _ (settled_step e st ev H)). apply (settled_step_progress e st ev H).
Qed.

(** An event that is neither a deadline of the live interval, nor a click on
    Cancel, nor the teardown, leaves the countdown as it is. *)
Lemma idle_step h d st ev :
  counting h d st -> undisturbed ev = true -> is_tick h ev = false ->
  counting h d (step st ev) /\ progress (step st ev) = progress st.
Proof.
  destruct st as [tm p iid vis disp tms nh lc]; unfold counting; simpl.
  intros (-> & -> & -> & -> & ->) Hu Hn.
  destruct ev; simpl in *; try discriminate; try (repeat split; fail).
  rewrite Pos.eqb_sym, Hn. repeat split.
Qed.

(** Any run without Cancel and teardown, in closed form: only the deadlines of
    the live interval count. *)
Lemma run_undisturbed h d evs : forall st,
  counting h d st -> forallb undisturbed evs = true ->
  match countdown d (ticks_of h evs) (progress st) with
  | Some p => counting h d (run st evs) /\ progress (run st evs) = p
  | None => settled ConfirmSplit (run st evs) /\ progress (run st evs) = 0%float
  end.
Proof.
  induction evs as [|ev evs IH]; intros st H Hu.
  - simpl. split; [exact H|reflexivity].
  - simpl in Hu. apply andb_true_iff in Hu as [Hev Hu].
    change (run st (ev :: evs)) with (run (step st ev) evs).
    unfold ticks_of. simpl filter. fold (ticks_of h evs).
    destruct (is_tick h ev) eqn:Et.
    + assert (ev = TimerDue h) as ->.
      { destruct ev; simpl in Et; try discriminate.
        apply Pos.eqb_eq in Et. now subst. }
      simpl length. fold (ticks_of h evs). simpl countdown.
      rewrite (tick_counting h d st H).
      destruct (PrimFloat.leb (PrimFloat.sub (progress st) d) 0).
      * pose proof (confirmed_settled h d st H) as Hs. split.
        -- apply settled_run, Hs.
        -- rewrite (settled_run_progress ConfirmSplit evs _ Hs). reflexivity.
      * assert (Hc : counting h d (set_progress (PrimFloat.sub (progress st) d) st)).
        { destruct H as (Hl & Ht & Hi & Hv & Hd). repeat split; assumption. }
        apply (IH _ Hc Hu).
    + destruct (idle_step h d st ev H Hev Et) as (Hc & Hp).
      rewrite <- Hp. apply (IH _ Hc Hu).
Qed.



(** After teardown, or once an event has been dispatched, no interval is
    left: the moment a timer would be due runs no callback. *)
Lemma destroy_clears st : shape st ->
  timers (step st Destroy) = [] /\ dispatched (step st Destroy) = dispatched st /\
  lifecycle (step st Destroy) = Destroyed.
Proof.
  intros [H | [(h & d & H) | [(e & H) | H]]];
    destruct st as [tm p iid vis disp tms nh lc];
    unfold fresh, counting, settled, torn_down in H; simpl in H.
  - destruct H as (-> & -> & -> & -> & ->). repeat split.
  - destruct H as (-> & -> & -> & -> & ->). simpl. rewrite Pos.eqb_refl. repeat split.
  - destruct H as (Hl & -> & -> & ->).
    destruct lc; [congruence| |repeat split].
    simpl. unfold onDestroy; simpl. destruct iid; repeat split.
  - destruct H as (-> & -> & ->). repeat split.
Qed.

Lemma destroyed_step st ev :
  lifecycle st = Destroyed -> timers st = [] ->
  lifecycle (step st ev) = Destroyed /\ timers (step st ev) = [] /\
  dispatched (step st ev) = dispatched st.
Proof.
  destruct st as [tm p iid vis disp tms nh lc]; simpl.
  intros -> ->. destruct ev; repeat split.
Qed.

Lemma destroyed_run evs : forall st,
  lifecycle st = Destroyed -> timers st = [] ->
  timers (run st evs) = [] /\ dispatched (run st evs) = dispatched st.
Proof.
  induction evs as [|ev evs IH]; intros st Hl Ht; simpl; [split; [exact Ht|reflexivity]|].
  destruct (destroyed_step st ev Hl Ht) as (Hl' & Ht' & Hd').
  destruct (IH _ Hl' Ht') as (G1 & G2). split; [exact G1|congruence].
Qed.

(** C4.  In any state the banner reaches: if it is mounted and still visible
    (the countdown has not reached zero), a click on Cancel dispatches
    [cancelSplit], hides the banner and clears the interval, and whatever
    happens later, however many timer deadlines pass, [cancelSplit] stays the
    only event dispatched: [confirmSplit] never is, and a due timer runs no
    callback.  And once the component is destroyed no interval is active: a
    due timer runs no callback and nothing more is dispatched. *)
Theorem cancel_or_teardown_silences_timer t h evs later :
  let st := run (init t h) evs in
  (lifecycle st = Mounted -> visible st = true ->
   let st1 := step st ClickCancel in
   dispatched st1 = dispatched st ++ [CancelSplit] /\
   visible st1 = false /\ timers st1 = [] /\
   dispatched (run st1 later) = [CancelSplit] /\
   count ConfirmSplit (run st1 later) = 0 /\
   forall h', step (run st1 later) (TimerDue h') = run st1 later) /\
  (let st2 := step st Destroy in
   timers st2 = [] /\
   dispatched (run st2 later) = dispatched st /\
   forall h', step (run st2 later) (TimerDue h') = run st2 later).
Proof.
  intros st. pose proof (reachable_shape t h evs) as Hs. fold st in Hs. split.
  - intros Hl Hv st1.
    assert (Hc : exists h0 d, counting h0 d st).
    { destruct Hs as [H | [H | [(e & H) | H]]].
      - destruct H as (H & _). congruence.
      - exact H.
      - destruct H as (_ & _ & H & _). congruence.
      - destruct H as (H & _). congruence. }
    destruct Hc as (h0 & d & Hc).
    assert (H1 : settled CancelSplit st1 /\ dispatched st1 = dispatched st ++ [CancelSplit]).
    { unfold st1. clear Hs Hl Hv st1.
      destruct st as [tm p iid vis disp tms nh lc]; unfold counting, settled in *; simpl in *.
      destruct Hc as (-> & -> & -> & -> & ->). simpl. rewrite Pos.eqb_refl.
      repeat split; discriminate. }
    destruct H1 as (H1 & Hd1).
    pose proof (settled_run CancelSplit later st1 H1) as (_ & Ht & _ & Hd).
    destruct H1 as (_ & Ht1 & Hv1 & _).
    repeat split; try assumption.
    + unfold count. rewrite Hd. reflexivity.
    + intros h'. apply no_timer_no_tick, Ht.
  - intros st2. destruct (destroy_clears st Hs) as (Ht & Hd & Hl).
    destruct (destroyed_run later (step st Destroy) Hl Ht) as (Ht' & Hd').
    repeat split.
    + exact Ht.
    + unfold st2. rewrite Hd'. exact Hd.
    + intros h'. apply no_timer_no_tick, Ht'.
Qed.

Lemma cancel_or_teardown_silences_timer_witness :
  let st := run (init 200 1%positive) [Mount; TimerDue 1%positive; TimerDue 1%positive] in
  let later := repeat (TimerDue 1%positive) 10 in
  lifecycle st = Mounted /\ visible st = true /\
  dispatched (run (step st ClickCancel) later) = [CancelSplit] /\
  count ConfirmSplit (run (step st ClickCancel) later) = 0.
Proof.
  cbv zeta.
  pose proof (cancel_or_teardown_silences_timer 200 1%positive
                [Mount; TimerDue 1%positive; TimerDue 1%positive]
                (repeat (TimerDue 1%positive) 10)) as H.
  cbv zeta in H. destruct H as (H & _).
  assert (Hl : lifecycle (run (init 200 1%positive) [Mount; TimerDue 1%positive; TimerDue 1%positive]) = Mounted)
    by (vm_compute; reflexivity).
  assert (Hv : visible (run (init 200 1%positive) [Mount; TimerDue 1%positive; TimerDue 1%positive]) = true)
    by (vm_compute; reflexivity).
  specialize (H Hl Hv).
  split; [exact Hl|]. split; [exact Hv|].
  split; [exact (proj1 (proj2 (proj2 (proj2 H))))
         |exact (proj1 (proj2 (proj2 (proj2 (proj2 H)))))].
Defined.

(** C10.  In any state the banner reaches, either nothing has been
    dispatched, or exactly one event has, [cancelSplit] or [confirmSplit]: the
    banner is then hidden, no interval is active, and in every later state
    that one event is still all that was dispatched.  So the two events
    together are dispatched at most once. *)
Theorem at_most_one_split_event t h evs :
  let st := run (init t h) evs in
  (dispatched st = [] \/
   exists e, dispatched st = [e] /\ visible st = false /\ timers st = [] /\
             forall later, dispatched (run st later) = [e]) /\
  count CancelSplit st + count ConfirmSplit st <= 1.
Proof.
  intros st. pose proof (reachable_shape t h evs) as Hs. fold st in Hs.
  assert (G : dispatched st = [] \/
              exists e, dispatched st = [e] /\ visible st = false /\ timers st = [] /\
                        forall later, dispatched (run st later) = [e]).
  { destruct Hs as [H | [(h0 & d & H) | [(e & H) | H]]].
    - left. apply H.
    - left. apply H.
    - right. exists e. destruct H as (Hl & Ht & Hv & Hd).
      repeat split; try assumption.
      intros later.
      apply (settled_run e later st (conj Hl (conj Ht (conj Hv Hd)))).
    - left. apply H. }
  split; [exact G|].
  unfold count. destruct G as [-> | (e & -> & _)]; [simpl; lia|].
  destruct e; simpl; lia.
Qed.

End BannerFacts.

Module ApiLaws.
Import Js SideChatApi.

(** X1.  A failure whose value is truthy (an error object, a parsed error
    body such as [{ detail: ... }], a non-empty string): each of the five
    functions, for each kind of failure, sends its one request, logs that
    value once and throws that very value. *)
Theorem truthy_error_is_logged_and_rethrown base stringify op token k e w :
  truthy e = true ->
  let r := perform base stringify (fun _ _ => failing k e) op token w in
  fst r = Rejected e /\
  logged (snd r) = logged w ++ [e] /\
  List.length (sent (snd r)) = S (List.length (sent w)).
Proof.
  intros He r. unfold r.
  split; [|split].
  - destruct (ApiFacts.perform_is_call base stringify (fun _ _ => failing k e) op token)
      as (url & init & ->).
    rewrite ApiFacts.call_cases, ApiFacts.failing_reaches_catch, He. reflexivity.
  - destruct (ApiFacts.perform_is_call base stringify (fun _ _ => failing k e) op token)
      as (url & init & ->).
    rewrite ApiFacts.call_cases, ApiFacts.failing_reaches_catch, He. reflexivity.
  - rewrite ApiFacts.perform_sends, length_app. simpl. lia.
Qed.

Lemma truthy_error_is_logged_and_rethrown_witness :
  let e := Obj [(lit "detail", Str (lit "Not found"))] in
  let r := perform (lit "/api/v1") (fun _ => lit "{}")
             (fun _ _ => failing HttpFailure e) (Delete (lit "sc1")) (Some (lit "tok"))
             {| sent := []; logged := [] |} in
  truthy e = true /\ fst r = Rejected e /\ logged (snd r) = [e].
Proof.
  cbv zeta.
  pose proof (truthy_error_is_logged_and_rethrown (lit "/api/v1") (fun _ => lit "{}")
                (Delete (lit "sc1")) (Some (lit "tok")) HttpFailure
                (Obj [(lit "detail", Str (lit "Not found"))])
                {| sent := []; logged := [] |} eq_refl) as H.
  cbv zeta in H. split; [reflexivity|]. split; [exact (proj1 H)|exact (proj1 (proj2 H))].
Defined.

(** X2.  Whatever the network does, a call sends exactly one request.  If it
    throws, the thrown value is truthy and is the one value it logged.  If it
    resolves, either nothing was logged, or a falsy value was caught and
    logged and the call resolved with [null]. *)
Theorem outcome_of_every_call base stringify fetch op token w :
  let r := perform base stringify fetch op token w in
  List.length (sent (snd r)) = S (List.length (sent w)) /\
  match fst r with
  | Rejected e => truthy e = true /\ logged (snd r) = logged w ++ [e]
  | Fulfilled v =>
      logged (snd r) = logged w \/
      (v = Null /\ exists e, truthy e = false /\ logged (snd r) = logged w ++ [e])
  end.
Proof.
  intros r. unfold r. split.
  - rewrite ApiFacts.perform_sends, length_app. simpl. lia.
  - destruct (ApiFacts.perform_is_call base stringify fetch op token)
      as (url & init & ->).
    rewrite ApiFacts.call_cases.
    destruct (and_then (fetch url init) on_response) as [v|e]; simpl.
    + left. reflexivity.
    + destruct (truthy e) eqn:E; simpl.
      * split; [exact E|reflexivity].
      * right. split; [reflexivity|]. exists e. split; [exact E|reflexivity].
Qed.

(** X3.  A response with a success status whose body parses: each of the five
    functions resolves with the parsed body, whatever it is ([null], [0] and
    [false] included), and logs nothing. *)
Theorem ok_response_resolves_with_body base stringify op token v w :
  let r := perform base stringify
             (fun _ _ => Fulfilled {| ok := true; json := Fulfilled v |}) op token w in
  fst r = Fulfilled v /\ logged (snd r) = logged w /\
  List.length (sent (snd r)) = S (List.length (sent w)).
Proof.
  intros r. unfold r. split; [|split].
  - destruct (ApiFacts.perform_is_call base stringify
                (fun _ _ => Fulfilled {| ok := true; json := Fulfilled v |}) op token)
      as (url & init & ->).
    rewrite ApiFacts.call_cases. reflexivity.
  - destruct (ApiFacts.perform_is_call base stringify
                (fun _ _ => Fulfilled {| ok := true; json := Fulfilled v |}) op token)
      as (url & init & ->).
    rewrite ApiFacts.call_cases. reflexivity.
  - rewrite ApiFacts.perform_sends, length_app. simpl. lia.
Qed.

End ApiLaws.

Module TrimLaws.
Import Js Observe.

Lemma trim_start_no_lead (s : jstring) : no_lead (trim_start s).
Proof.
  induction s as [|c s IH]; simpl; [exact I|].
  destruct (is_ws c) eqn:E; [exact IH|exact E].
Qed.

Lemma trim_start_fixed (s : jstring) : no_lead s -> trim_start s = s.
Proof. destruct s as [|c s]; simpl; [reflexivity|]. now intros ->. Qed.

Lemma trim_start_nil (s : jstring) : trim_start s = [] -> forallb is_ws s = true.
Proof.
  induction s as [|c s IH]; simpl; [reflexivity|].
  destruct (is_ws c); [exact IH|discriminate].
Qed.

Lemma forallb_rev (f : N -> bool) (s : jstring) :
  forallb f (rev s) = true -> forallb f s = true.
Proof.
  rewrite !forallb_forall. intros H x Hx. apply H. now apply in_rev in Hx.
Qed.

(** Trimming the start of a string that ends in a non-blank keeps that end. *)
Lemma trim_start_snoc (x : jstring) (c : N) :
  is_ws c = false -> exists y, trim_start (x ++ [c]) = y ++ [c].
Proof.
  intros Hc. induction x as [|a x IH]; simpl.
  - rewrite Hc. now exists [].
  - destruct (is_ws a); [exact IH|]. now exists (a :: x).
Qed.

Lemma trim_blank_iff (s : jstring) : trim s = [] <-> forallb is_ws s = true.
Proof.
  split; [|apply JsFacts.trim_all_ws].
  unfold trim, trim_end. intros H.
  assert (H1 : trim_start (rev (trim_start s)) = []).
  { destruct (trim_start (rev (trim_start s))) as [|a l]; [reflexivity|].
    simpl in H. now apply app_eq_nil in H as [_ H]. }
  apply trim_start_nil, forallb_rev in H1.
  pose proof (trim_start_no_lead s) as Hn.
  destruct (trim_start s) as [|c t] eqn:E.
  - now apply trim_start_nil.
  - simpl in H1, Hn. rewrite Hn in H1. discriminate.
Qed.

(** [trim] leaves white space neither at the start nor at the end. *)
Lemma trim_clean (s : jstring) :
  no_lead (trim s) /\ no_lead (rev (trim s)).
Proof.
  unfold trim, trim_end. rewrite rev_involutive. split; [|apply trim_start_no_lead].
  pose proof (trim_start_no_lead s) as Hn.
  destruct (trim_start s) as [|c t]; [exact I|].
  simpl in Hn. simpl rev.
  destruct (trim_start_snoc (rev t) c Hn) as (y & ->).
  rewrite rev_app_distr. simpl. exact Hn.
Qed.

Lemma trim_idempotent (s : jstring) : trimmed (trim s).
Proof.
  destruct (trim_clean s) as (H1 & H2).
  unfold trimmed. unfold trim at 1. unfold trim_end.
  rewrite (trim_start_fixed _ H1), (trim_start_fixed _ H2).
  apply rev_involutive.
Qed.

End TrimLaws.

Module PanelLaws.
Import Js SideChat Observe.

Lemma dispatch_grows (l : list emitted) (e : emitted) : l ++ [e] <> l.
Proof.
  intros H. apply (f_equal (@List.length emitted)) in H.
  rewrite length_app in H. simpl in H. lia.
Qed.

(** What [handleSend] does to the events, whatever the listener does. *)
Lemma handleSend_dispatched listener st :
  dispatched (snd (handleSend listener st)) =
  if negb (truthy (Str (trim (inputText st)))) || isStreaming st
  then dispatched st
  else dispatched st ++ [SendMessage (trim (inputText st))].
Proof.
  unfold handleSend, dispatch.
  destruct (negb (truthy (Str (trim (inputText st)))) || isStreaming st);
    [reflexivity|].
  destruct (listener (SendMessage (trim (inputText st)))); reflexivity.
Qed.

(** X5.  In any state the panel reaches, with any text [s] in the input:
    [handleSend] leaves the component untouched exactly when [s] is blank
    (empty or white space only), and then throws nothing.  Otherwise it
    dispatches one [sendMessage] whose content is [s] trimmed; if the
    listener returns, the input is then emptied; if the listener throws,
    [handleSend] throws the same and the input is left as it was. *)
Theorem send_exactly_when_not_blank listener n c ms o evs s :
  let st := set_inputText s (run listener (init n c ms o) evs) in
  let r := handleSend listener st in
  (snd r = st <-> forallb is_ws s = true) /\
  (forallb is_ws s = true -> fst r = None) /\
  (forallb is_ws s = false ->
   dispatched (snd r) = dispatched st ++ [SendMessage (trim s)] /\
   fst r = listener (SendMessage (trim s)) /\
   inputText (snd r) = match fst r with None => [] | Some _ => s end).
Proof.
  intros st r.
  assert (Hs : isStreaming st = false) by apply PanelFacts.never_streaming.
  destruct (PanelFacts.handleSend_cases listener st) as [(He & Hc) | (Hn & _ & He)];
    fold r in He.
  - assert (Hb : forallb is_ws s = true).
    { destruct Hc as [Hc | Hc]; [|congruence]. now apply TrimLaws.trim_blank_iff. }
    rewrite He. split; [split; auto|]. split; [reflexivity|]. intros Hf. congruence.
  - assert (Hb : forallb is_ws s = false).
    { destruct (forallb is_ws s) eqn:E; [|reflexivity].
      exfalso. apply Hn. now apply TrimLaws.trim_blank_iff. }
    change (inputText st) with s in He.
    split; [|split; [congruence|]].
    + split; [|congruence]. intros Hst. exfalso.
      apply (f_equal dispatched) in Hst. rewrite He in Hst.
      destruct (listener (SendMessage (trim s))); simpl in Hst;
        now apply dispatch_grows in Hst.
    + intros _. rewrite He.
      destruct (listener (SendMessage (trim s))); repeat split.
Qed.

(** X6.  After a [handleSend] that returned, a second [handleSend] changes
    nothing and sends nothing: the input is empty by then, or the first call
    had not sent either. *)
Theorem send_twice_sends_once listener st :
  fst (handleSend listener st) = None ->
  handleSend listener (snd (handleSend listener st)) =
  (None, snd (handleSend listener st)).
Proof.
  destruct (PanelFacts.handleSend_cases listener st) as [(He & _) | (_ & _ & He)].
  - intros _. now rewrite !He.
  - rewrite He. destruct (listener (SendMessage (trim (inputText st)))); simpl.
    + discriminate.
    + intros _. reflexivity.
Qed.

Lemma send_twice_sends_once_witness :
  let quiet := fun _ : emitted => @None value in
  let st := set_inputText (lit " hello ") (init 1%float [] [] true) in
  fst (handleSend quiet st) = None /\
  dispatched (snd (handleSend quiet st)) = [SendMessage (lit "hello")] /\
  handleSend quiet (snd (handleSend quiet st)) = (None, snd (handleSend quiet st)).
Proof.
  cbv zeta. split; [reflexivity|]. split; [reflexivity|].
  exact (send_twice_sends_once (fun _ : emitted => @None value)
           (set_inputText (lit " hello ") (init 1%float [] [] true)) eq_refl).
Defined.

Lemma handleSend_well_formed listener st :
  Forall well_formed_send (dispatched st) ->
  Forall well_formed_send (dispatched (snd (handleSend listener st))).
Proof.
  intros H.
  destruct (PanelFacts.handleSend_cases listener st) as [(-> & _) | (Hn & _ & ->)];
    [exact H|].
  assert (G : Forall well_formed_send
                (dispatched st ++ [SendMessage (trim (inputText st))])).
  { apply Forall_app. split; [exact H|].
    constructor; [|constructor]. split; [exact Hn|apply TrimLaws.trim_idempotent]. }
  destruct (listener (SendMessage (trim (inputText st)))); exact G.
Qed.

Lemma step_well_formed listener st ev :
  Forall well_formed_send (dispatched st) ->
  Forall well_formed_send (dispatched (step listener st ev)).
Proof.
  intros H.
  assert (Hi : forall e, well_formed_send e ->
                         Forall well_formed_send (dispatched st ++ [e])).
  { intros e He. apply Forall_app. split; [exact H|]. now repeat constructor. }
  destruct ev; unfold step, user_step; simpl;
    try (destruct (isOpen st); [|exact H]); try exact H.
  - unfold handleKeydown.
    destruct (jstring_eqb key (lit "Enter") && negb shiftKey); simpl;
      [now apply handleSend_well_formed|exact H].
  - destruct (send_disabled st); [exact H|now apply handleSend_well_formed].
  - destruct (combine_disabled st); [exact H|]. apply Hi. exact I.
  - destruct (discard_disabled st); [exact H|]. apply Hi. exact I.
  - apply Hi. exact I.
  - unfold react_messages. simpl. destruct ms; exact H.
Qed.

(** X7.  Every [sendMessage] event the panel ever dispatches carries a
    content that is non-empty and has white space neither at its start nor at
    its end. *)
Theorem every_sent_content_is_trimmed listener n c ms o evs :
  Forall well_formed_send (dispatched (run listener (init n c ms o) evs)).
Proof.
  assert (G : forall st, Forall well_formed_send (dispatched st) ->
                         Forall well_formed_send (dispatched (run listener st evs))).
  { induction evs as [|ev evs IH]; intros st H; simpl; [exact H|].
    apply IH, step_well_formed, H. }
  apply G. unfold init, react_messages. destruct ms; constructor.
Qed.

(** X8.  [handleKeydown] calls [preventDefault] exactly for Enter without
    Shift, and then does what [handleSend] does, so that Enter on a blank
    input is swallowed without anything being sent; any other key, and Enter
    with Shift, is left to the textarea and changes nothing. *)
Theorem enter_submits_shift_enter_does_not listener key shiftKey st :
  (fst (handleKeydown listener key shiftKey st) = true <->
   key = lit "Enter" /\ shiftKey = false) /\
  snd (handleKeydown listener key shiftKey st) =
    (if fst (handleKeydown listener key shiftKey st)
     then handleSend listener st else (None, st)) /\
  (trim (inputText st) = [] ->
   snd (handleKeydown listener key shiftKey st) = (None, st)).
Proof.
  unfold handleKeydown.
  destruct (jstring_eqb key (lit "Enter")) eqn:Ek; destruct shiftKey; simpl.
  - split; [|split; [reflexivity|reflexivity]].
    split; [discriminate|]. intros (_ & H). discriminate.
  - apply JsFacts.jstring_eqb_eq in Ek.
    split; [|split; [reflexivity|apply PanelFacts.handleSend_blank]].
    split; auto.
  - split; [|split; [reflexivity|reflexivity]].
    split; [discriminate|]. intros (_ & H). discriminate.
  - split; [|split; [reflexivity|reflexivity]].
    split; [discriminate|]. intros (H & _).
    apply JsFacts.jstring_eqb_eq in H. congruence.
Qed.

Lemma intents_record e st :
  intents (record_event e st) = intents st + (if is_intent e then 1 else 0).
Proof.
  unfold intents. simpl. rewrite filter_app, length_app. simpl.
  destruct (is_intent e); reflexivity.
Qed.

Lemma intents_handleSend listener st :
  intents (snd (handleSend listener st)) = intents st.
Proof.
  unfold intents. rewrite handleSend_dispatched.
  destruct (negb (truthy (Str (trim (inputText st)))) || isStreaming st);
    [reflexivity|].
  rewrite filter_app, length_app. simpl. lia.
Qed.

Lemma step_one_intent listener st ev :
  one_intent st -> one_intent (step listener st ev).
Proof.
  unfold one_intent. intros H.
  destruct (PanelFacts.handleSend_keeps listener st) as (Hc & Hd & _).
  destruct ev; unfold step, user_step; simpl;
    try (destruct (isOpen st); [|exact H]); try exact H.
  - unfold handleKeydown.
    destruct (jstring_eqb key (lit "Enter") && negb shiftKey); simpl; [|exact H].
    rewrite Hc, Hd. now rewrite intents_handleSend.
  - destruct (send_disabled st); [exact H|].
    rewrite Hc, Hd. now rewrite intents_handleSend.
  - unfold combine_disabled. destruct (combineLoading st || discardLoading st) eqn:E.
    + rewrite E. exact H.
    + unfold handleCombine, dispatch. simpl snd. rewrite intents_record. simpl.
      unfold intents in *. simpl. lia.
  - unfold discard_disabled. destruct (combineLoading st || discardLoading st) eqn:E.
    + rewrite E. exact H.
    + unfold handleDiscard, dispatch. simpl snd. rewrite intents_record. simpl.
      rewrite orb_true_r. unfold intents in *. simpl. lia.
  - unfold handleClose, dispatch. simpl snd. rewrite intents_record. simpl.
    destruct (combineLoading st || discardLoading st); lia.
  - unfold react_messages. simpl. destruct ms; exact H.
Qed.

(** X9.  Over the whole life of a panel, the Combine and Discard buttons
    together dispatch at most one event: none while no busy flag is set, and
    exactly one, ever, once a flag is set. *)
Theorem at_most_one_combine_or_discard listener n c ms o evs :
  let st := run listener (init n c ms o) evs in
  intents st <= 1 /\
  (intents st = 1 <-> combineLoading st || discardLoading st = true).
Proof.
  intros st.
  assert (G : forall st0, one_intent st0 -> one_intent (run listener st0 evs)).
  { induction evs as [|ev evs IH]; intros st0 H; simpl; [exact H|].
    apply IH, step_one_intent, H. }
  assert (H : one_intent st).
  { apply G. unfold one_intent, init, react_messages. destruct ms; reflexivity. }
  unfold one_intent in H.
  destruct (combineLoading st || discardLoading st); rewrite H; split; try lia;
    split; intros; try reflexivity; discriminate.
Qed.

Lemma completed_record listener e st :
  completed_sends listener (record_event e st) =
  completed_sends listener st + (if is_send e && returned listener e then 1 else 0).
Proof.
  unfold completed_sends. simpl. rewrite filter_app, length_app. simpl.
  destruct (is_send e && returned listener e); reflexivity.
Qed.

Lemma handleSend_scrolls listener st :
  scrolls (snd (handleSend listener st)) + completed_sends listener st =
  scrolls st + completed_sends listener (snd (handleSend listener st)).
Proof.
  destruct (PanelFacts.handleSend_cases listener st) as [(-> & _) | (_ & _ & ->)];
    [simpl; lia|].
  pose proof (completed_record listener (SendMessage (trim (inputText st))) st) as H.
  unfold returned in H.
  destruct (listener (SendMessage (trim (inputText st)))); simpl in *.
  - lia.
  - change (completed_sends listener
              (scrollToBottom
                 (set_inputText [] (record_event (SendMessage (trim (inputText st))) st))))
      with (completed_sends listener
              (record_event (SendMessage (trim (inputText st))) st)).
    lia.
Qed.

Lemma step_scrolls listener st ev :
  scrolls (step listener st ev) + completed_sends listener st =
  scrolls st + (if is_update ev then 1 else 0) +
  completed_sends listener (step listener st ev).
Proof.
  destruct ev; unfold step, user_step; simpl;
    try (destruct (isOpen st); [|lia]); try (unfold completed_sends; simpl; lia).
  - unfold handleKeydown.
    destruct (jstring_eqb key (lit "Enter") && negb shiftKey); simpl; [|lia].
    pose proof (handleSend_scrolls listener st). lia.
  - destruct (send_disabled st); [lia|].
    pose proof (handleSend_scrolls listener st). lia.
  - destruct (combine_disabled st); [lia|].
    unfold handleCombine, dispatch. simpl snd. rewrite completed_record. simpl.
    unfold completed_sends. simpl. lia.
  - destruct (discard_disabled st); [lia|].
    unfold handleDiscard, dispatch. simpl snd. rewrite completed_record. simpl.
    unfold completed_sends. simpl. lia.
  - unfold handleClose, dispatch. simpl snd. rewrite completed_record. simpl. lia.
  - unfold react_messages. simpl. destruct ms; unfold completed_sends; simpl; lia.
Qed.

(** X17.  The panel asks to scroll to the bottom once for every message it
    sends whose listener returns, and once every time the parent sets a
    non-empty [messages] (the creation of the component counting as one such
    time), and never otherwise: a send whose listener throws is left before
    [scrollToBottom()]. *)
Theorem scrolls_follow_messages listener n c ms o evs :
  scrolls (run listener (init n c ms o) evs) =
  updates (SetMessages ms :: evs) +
  completed_sends listener (run listener (init n c ms o) evs).
Proof.
  assert (G : forall evs st,
             scrolls (run listener st evs) + completed_sends listener st =
             scrolls st + updates evs + completed_sends listener (run listener st evs)).
  { clear. induction evs as [|ev evs IH]; intros st.
    - change (run listener st []) with st. unfold updates. simpl. lia.
    - change (run listener st (ev :: evs)) with (run listener (step listener st ev) evs).
      pose proof (IH (step listener st ev)) as H1.
      pose proof (step_scrolls listener st ev) as H2.
      unfold updates in *. simpl filter.
      destruct (is_update ev); cbn [Datatypes.length]; lia. }
  pose proof (G evs (init n c ms o)) as H.
  unfold updates in *. simpl filter.
  destruct ms as [|m ms]; simpl in *; unfold completed_sends in *; simpl in *; lia.
Qed.


End PanelLaws.

Module StepLaws.
Import Js StepControls StepControlsRun.

Lemma resume_show_all_loading listener o st :
  loading (handleShowAll_resume listener o st) = loading st.
Proof.
  unfold handleShowAll_resume, dispatch.
  destruct o as [res|err]; [destruct (listener (ShowAllSteps res))|]; reflexivity.
Qed.

Lemma step_in_step listener s ev : in_step s -> in_step (step listener s ev).
Proof.
  unfold in_step. destruct s as [st n m]; simpl. intros H.
  destruct ev; simpl.
  - unfold next_disabled, handleNext_start.
    destruct (loading st) eqn:El; simpl; [rewrite El; exact H|].
    destruct (jstring_eqb (chatId st) []); simpl; [rewrite El; exact H|].
    now rewrite H.
  - destruct n as [|n]; simpl; [exact H|].
    destruct (loading st); [|discriminate]. now inversion H.
  - destruct (jstring_eqb (chatId st) []); simpl; exact H.
  - destruct m as [|m]; simpl; [exact H|].
    now rewrite resume_show_all_loading.
  - exact H.
Qed.

(** X11.  However clicks, prop changes and settling requests interleave, at
    most one [nextStep] request is pending at any time, and the Next button is
    disabled exactly while one is: it is enabled again as soon as the request
    has settled. *)
Theorem one_next_request_at_a_time listener chatId' cur tot summary evs :
  let s := run listener (boot chatId' cur tot summary) evs in
  next_in_flight s <= 1 /\
  (next_disabled (component s) = true <-> next_in_flight s = 1).
Proof.
  intros s.
  assert (G : forall s0, in_step s0 -> in_step (run listener s0 evs)).
  { induction evs as [|ev evs IH]; intros s0 H; simpl; [exact H|].
    apply IH, step_in_step, H. }
  assert (H : in_step s) by (apply G; reflexivity).
  unfold in_step in H. unfold next_disabled.
  destruct (loading (component s)); rewrite H; split; try lia;
    split; intros; try reflexivity; discriminate.
Qed.

Lemma set_loading_back args st :
  loading st = false ->
  set_loading false (console_error args (set_loading true st)) = console_error args st.
Proof. destruct st; simpl. now intros ->. Qed.

(** X12.  A [nextStep] request that fails leaves the component as it was but
    for one more line on the console: nothing is dispatched and nothing is
    thrown to the caller.  One that succeeds, with a listener that does not
    throw, only adds the [nextStep] event carrying the result. *)
Theorem next_outcome_is_contained token nextStep listener st :
  loading st = false -> chatId st <> [] ->
  match nextStep token (chatId st) with
  | Rejected err =>
      handleNext token nextStep listener st =
      console_error [Str (lit "nextStep failed:"); err] st
  | Fulfilled res =>
      dispatched (handleNext token nextStep listener st) =
        dispatched st ++ [NextStep res] /\
      (listener (NextStep res) = None ->
       handleNext token nextStep listener st = record_event (NextStep res) st)
  end.
Proof.
  intros Hl Hc. unfold handleNext. rewrite (StepFacts.start_when_idle st Hl Hc).
  destruct (nextStep token (chatId st)) as [res|err].
  - split.
    + unfold handleNext_resume, dispatch.
      destruct (listener (NextStep res)); reflexivity.
    + intros Hn. unfold handleNext_resume, dispatch. rewrite Hn.
      destruct st; simpl in *. now rewrite Hl.
  - unfold handleNext_resume. now apply set_loading_back.
Qed.

Lemma next_outcome_is_contained_witness :
  let st := init (lit "chat-1") 1%float 3%float [] in
  let nextStep := fun (_ : value) (_ : jstring) => @Rejected value (Str (lit "boom")) in
  let listener := fun _ : emitted => @None value in
  loading st = false /\ chatId st <> [] /\
  handleNext Null nextStep listener st =
    console_error [Str (lit "nextStep failed:"); Str (lit "boom")] st.
Proof.
  cbv zeta.
  assert (Hl : loading (init (lit "chat-1") 1%float 3%float []) = false) by reflexivity.
  assert (Hc : chatId (init (lit "chat-1") 1%float 3%float []) <> []) by discriminate.
  split; [exact Hl|]. split; [exact Hc|].
  exact (next_outcome_is_contained Null
           (fun (_ : value) (_ : jstring) => @Rejected value (Str (lit "boom")))
           (fun _ : emitted => @None value)
           (init (lit "chat-1") 1%float 3%float []) Hl Hc).
Defined.

(** X13.  "Show all steps" never touches [loading]: it neither disables nor
    re-enables Next, in flight or settled.  Without a chat id it does nothing
    at all; a failed request only adds a line to the console. *)
Theorem show_all_is_independent_of_next token getAllSteps listener st o :
  loading (handleShowAll token getAllSteps listener st) = loading st /\
  loading (handleShowAll_resume listener o st) = loading st /\
  (chatId st = [] -> handleShowAll token getAllSteps listener st = st) /\
  (forall err, handleShowAll_resume listener (Rejected err) st =
               console_error [Str (lit "getAllSteps failed:"); err] st).
Proof.
  split; [|split; [apply resume_show_all_loading|split]].
  - unfold handleShowAll.
    destruct (negb (truthy (Str (chatId st)))); [reflexivity|].
    apply resume_show_all_loading.
  - intros Hc. unfold handleShowAll. now rewrite Hc.
  - reflexivity.
Qed.

End StepLaws.

Module BannerLaws.
Import Js TopicSplit Observe.

Lemma step_keeps_mounted st ev : lifecycle st <> Created -> lifecycle (step st ev) <> Created.
Proof.
  destruct st as [tm p iid vis disp tms nh lc]; simpl. intros Hl.
  destruct ev; simpl.
  - destruct lc; simpl; congruence.
  - destruct (active h tms); [|exact Hl].
    unfold on_tick; simpl. destruct (PrimFloat.leb (PrimFloat.sub p f) 0); simpl.
    + destruct iid; exact Hl.
    + exact Hl.
  - destruct lc; simpl; try congruence. destruct vis; simpl; [|congruence].
    destruct iid; simpl; congruence.
  - destruct lc; simpl; congruence.
  - destruct lc; simpl; try congruence.
    unfold onDestroy; simpl. destruct iid; simpl; congruence.
Qed.

(** After mounting, no handler reads [timeoutMs]. *)
Lemma step_but_timeoutMs st st' ev :
  lifecycle st <> Created -> but_timeoutMs st = but_timeoutMs st' ->
  is_SetTimeoutMs ev = false ->
  but_timeoutMs (step st ev) = but_timeoutMs (step st' ev).
Proof.
  destruct st as [tm p iid vis disp tms nh lc];
    destruct st' as [tm' p' iid' vis' disp' tms' nh' lc'].
  unfold but_timeoutMs; simpl. intros Hl H Hev. inversion H; subst; clear H.
  destruct ev; simpl in *; try discriminate.
  - destruct lc'; simpl; congruence.
  - destruct (active h tms'); [|reflexivity].
    unfold on_tick; simpl. destruct (PrimFloat.leb (PrimFloat.sub p' f) 0); simpl;
      [destruct iid'|]; reflexivity.
  - destruct lc'; simpl; try reflexivity. destruct vis'; simpl; [|reflexivity].
    destruct iid'; reflexivity.
  - destruct lc'; simpl; try reflexivity;
      unfold onDestroy; simpl; destruct iid'; reflexivity.
Qed.

Lemma set_but_timeoutMs st t :
  lifecycle st <> Created ->
  but_timeoutMs (step st (SetTimeoutMs t)) = but_timeoutMs st.
Proof. destruct st as [tm p iid vis disp tms nh lc]; simpl. destruct lc; reflexivity. Qed.

Lemma lifecycle_of_but st st' :
  but_timeoutMs st = but_timeoutMs st' -> lifecycle st = lifecycle st'.
Proof. unfold but_timeoutMs. intros H. now inversion H. Qed.

(** X14.  The [timeoutMs] prop is read once, when the component mounts: from
    then on, changing it changes nothing but the prop itself.  A run and the
    same run without the prop changes agree on [progress], on what is
    visible, on the events dispatched and on the timers. *)
Theorem timeout_prop_is_read_at_mount st evs :
  lifecycle st <> Created ->
  but_timeoutMs (run st evs) =
  but_timeoutMs (run st (filter (fun ev => negb (is_SetTimeoutMs ev)) evs)).
Proof.
  intros Hl.
  assert (G : forall evs st st',
             lifecycle st <> Created -> but_timeoutMs st = but_timeoutMs st' ->
             but_timeoutMs (run st evs) =
             but_timeoutMs (run st' (filter (fun ev => negb (is_SetTimeoutMs ev)) evs))).
  { clear. induction evs as [|ev evs IH]; intros st st' Hl H; [exact H|].
    change (run st (ev :: evs)) with (run (step st ev) evs).
    simpl filter. destruct (is_SetTimeoutMs ev) eqn:E; simpl negb; cbv iota.
    - destruct ev; try discriminate E.
      apply IH; [now apply step_keeps_mounted|].
      rewrite set_but_timeoutMs; assumption.
    - change (run st' (ev :: filter (fun ev0 => negb (is_SetTimeoutMs ev0)) evs))
        with (run (step st' ev) (filter (fun ev0 => negb (is_SetTimeoutMs ev0)) evs)).
      apply IH; [now apply step_keeps_mounted|].
      now apply step_but_timeoutMs. }
  now apply G.
Qed.

Lemma timeout_prop_is_read_at_mount_witness :
  let st := step (init 200 3%positive) Mount in
  let evs := [TimerDue 3%positive; SetTimeoutMs 50; TimerDue 3%positive] in
  lifecycle st <> Created /\
  progress (run st evs) = 50%float /\
  but_timeoutMs (run st evs) =
    but_timeoutMs (run st [TimerDue 3%positive; TimerDue 3%positive]).
Proof.
  cbv zeta.
  assert (Hl : lifecycle (step (init 200 3%positive) Mount) <> Created) by discriminate.
  split; [exact Hl|]. split; [vm_compute; reflexivity|].
  exact (timeout_prop_is_read_at_mount (step (init 200 3%positive) Mount)
           [TimerDue 3%positive; SetTimeoutMs 50; TimerDue 3%positive] Hl).
Defined.

Lemma destroyed_inert st ev :
  lifecycle st = Destroyed -> timers st = [] -> step st ev = st.
Proof.
  destruct st as [tm p iid vis disp tms nh lc]; simpl.
  intros -> ->. destruct ev; reflexivity.
Qed.

Lemma destroyed_inert_run evs : forall st,
  lifecycle st = Destroyed -> timers st = [] -> run st evs = st.
Proof.
  induction evs as [|ev evs IH]; intros st Hl Ht; simpl; [reflexivity|].
  rewrite (destroyed_inert st ev Hl Ht). now apply IH.
Qed.

(** X15.  A hidden banner is inert: in any state the banner reaches in which
    it is not visible, whatever happens later it stays hidden, [progress] stays
    where it was, no timer is active and nothing more is dispatched. *)
Theorem hidden_banner_is_inert t h evs later :
  let st := run (init t h) evs in
  visible st = false ->
  visible (run st later) = false /\
  progress (run st later) = progress st /\
  dispatched (run st later) = dispatched st /\
  timers (run st later) = [].
Proof.
  intros st Hv.
  pose proof (BannerFacts.reachable_shape t h evs) as Hs. fold st in Hs.
  destruct Hs as [H | [(h0 & d & H) | [(e & H) | H]]].
  - destruct H as (_ & _ & _ & H & _). congruence.
  - destruct H as (_ & _ & _ & H & _). congruence.
  - pose proof (BannerFacts.settled_run e later st H) as (_ & Ht & Hv' & Hd).
    pose proof (BannerFacts.settled_run_progress e later st H) as Hp.
    destruct H as (_ & _ & _ & Hd0).
    repeat split; try assumption. congruence.
  - destruct H as (Hl & Ht & _).
    rewrite (destroyed_inert_run later st Hl Ht). repeat split; assumption.
Qed.

Lemma hidden_banner_is_inert_witness :
  let st := run (init 200 1%positive) [Mount; TimerDue 1%positive; ClickCancel] in
  let later := [TimerDue 1%positive; ClickCancel; SetTimeoutMs 10; TimerDue 1%positive] in
  visible st = false /\
  visible (run st later) = false /\ progress (run st later) = 75%float.
Proof.
  cbv zeta.
  assert (Hv : visible (run (init 200 1%positive)
                          [Mount; TimerDue 1%positive; ClickCancel]) = false)
    by (vm_compute; reflexivity).
  split; [exact Hv|].
  pose proof (hidden_banner_is_inert 200 1%positive
                [Mount; TimerDue 1%positive; ClickCancel]
                [TimerDue 1%positive; ClickCancel; SetTimeoutMs 10; TimerDue 1%positive]
                Hv) as H.
  cbv zeta in H. destruct H as (H1 & H2 & _).
  split; [exact H1|]. rewrite H2. vm_compute. reflexivity.
Defined.

Lemma countdown_zero_timeout n :
  countdown (decrement_of 0) (S n) 100 = None.
Proof. vm_compute. reflexivity. Qed.

Lemma countdown_infinite_timeout n :
  countdown (decrement_of infinity) n 100 = Some 100%float.
Proof.
  change (decrement_of infinity) with 0%float.
  induction n as [|n IH]; [reflexivity|].
  change (countdown 0 (S n) 100) with (countdown 0 n 100). exact IH.
Qed.

Lemma countdown_nan_from_nan n : countdown nan n nan = Some nan.
Proof.
  induction n as [|n IH]; [reflexivity|].
  change (countdown nan (S n) nan) with (countdown nan n nan). exact IH.
Qed.

Lemma countdown_nan_timeout n :
  exists p, countdown (decrement_of nan) n 100 = Some p.
Proof.
  change (decrement_of nan) with nan.
  destruct n as [|n]; [now exists 100%float|].
  change (countdown nan (S n) 100) with (countdown nan n nan).
  exists nan. apply countdown_nan_from_nan.
Qed.

(** X16.  Degenerate values of [timeoutMs], on any run without Cancel and
    teardown.  With [timeoutMs = 0] mounting dispatches nothing and the first
    tick confirms.  With [timeoutMs = Infinity] the decrement is 0, [progress]
    stays at 100 and the banner never confirms; with [timeoutMs = NaN] it
    never confirms either. *)
Theorem degenerate_timeouts h evs :
  forallb undisturbed evs = true ->
  (dispatched (run (step (init 0 h) Mount) evs) =
     match ticks_of h evs with O => [] | S _ => [ConfirmSplit] end) /\
  (dispatched (run (step (init infinity h) Mount) evs) = [] /\
   visible (run (step (init infinity h) Mount) evs) = true /\
   progress (run (step (init infinity h) Mount) evs) = 100%float) /\
  (dispatched (run (step (init nan h) Mount) evs) = [] /\
   visible (run (step (init nan h) Mount) evs) = true).
Proof.
  intros Hu.
  assert (Hc : forall t', counting h (decrement_of t') (step (init t' h) Mount)).
  { intros t'. apply (BannerFacts.mount_counting (init t' h)), BannerFacts.init_fresh. }
  split; [|split].
  - pose proof (BannerFacts.run_undisturbed h _ evs _ (Hc 0%float) Hu) as H.
    change (progress (step (init 0 h) Mount)) with 100%float in H.
    destruct (ticks_of h evs) as [|n].
    + simpl in H. apply H.
    + rewrite countdown_zero_timeout in H. apply H.
  - pose proof (BannerFacts.run_undisturbed h _ evs _ (Hc infinity) Hu) as H.
    change (progress (step (init infinity h) Mount)) with 100%float in H.
    rewrite countdown_infinite_timeout in H.
    destruct H as ((_ & _ & _ & Hv & Hd) & Hp). repeat split; assumption.
  - pose proof (BannerFacts.run_undisturbed h _ evs _ (Hc nan) Hu) as H.
    change (progress (step (init nan h) Mount)) with 100%float in H.
    destruct (countdown_nan_timeout (ticks_of h evs)) as (p & Hp).
    rewrite Hp in H. destruct H as ((_ & _ & _ & Hv & Hd) & _). split; assumption.
Qed.

Lemma degenerate_timeouts_witness :
  let evs := [TimerDue 2%positive; SetTimeoutMs 100; TimerDue 2%positive] in
  forallb undisturbed evs = true /\
  dispatched (run (step (init 0 2%positive) Mount) evs) = [ConfirmSplit] /\
  dispatched (run (step (init infinity 2%positive) Mount) evs) = [].
Proof.
  cbv zeta.
  assert (Hu : forallb undisturbed
                 [TimerDue 2%positive; SetTimeoutMs 100; TimerDue 2%positive] = true)
    by reflexivity.
  split; [exact Hu|].
  pose proof (degenerate_timeouts 2%positive
                [TimerDue 2%positive; SetTimeoutMs 100; TimerDue 2%positive] Hu) as H.
  split; [exact (proj1 H)|exact (proj1 (proj1 (proj2 H)))].
Defined.

End BannerLaws.
